(** * mnemo / nlp_service: the analysis pipeline, embedded in Rocq

    A shallow embedding of the Python sources under [src/nlp_service]:
    preprocessor, history store, result cache, heuristic parser, fusion,
    postprocessor and analyzer, followed by the properties of the
    specification that were checked against them.

    Conventions of the embedding:
    - a Python [str] is the list of its Unicode code points ([list N]);
      string literals of the source are written as Rocq strings and decoded
      from UTF-8 by [u];
    - a Python [float] is an IEEE-754 binary64 value (Rocq's primitive
      [float]), so that [0.5 + 0.2 + 0.2] rounds as it does in CPython;
    - a Python [int] is a [Z]; [Optional[T]] is [option T];
    - a call that can raise returns an [exn] result ([Ok v] or [Raised]),
      threaded with the monad notation; a conversion that can fail returns
      an [option];
    - the character tables ([isspace], [isword], [lower]) cover ASCII and
      the Cyrillic block, the alphabets of the service's keyword tables;
    - pydantic models are records; the constraints their fields declare are
      the [valid] predicates, checked where the source constructs a model. *)

From Stdlib Require Import ZArith NArith QArith List Bool Lia Floats String Ascii DecimalString.
From stdpp Require Import gmap strings list.

Set Warnings "-inexact-float".
Local Open Scope Z_scope.

(* ===================================================================== *)
(** ** Python values *)
(* ===================================================================== *)

Module Py.

(** *** [float] *)

(** [float(n)] for an [int]: the nearest binary64 value. *)
Definition float_of_int (n : Z) : float :=
  SF2Prim (binary_normalize prec emax n 0 false).

(** [int(x)]: truncation toward zero; raises on infinities and NaN. *)
Definition int_of_float (x : float) : option Z :=
  match Prim2SF x with
  | S754_zero _ => Some 0
  | S754_finite s m e =>
      Some (cond_Zopp s (if 0 <=? e then Z.pos m * 2 ^ e else Z.pos m / 2 ^ (- e)))
  | S754_infinity _ | S754_nan => None
  end.

(** Comparisons; every comparison with NaN is false, as in Python. *)
Definition lt (x y : float) : bool := PrimFloat.ltb x y.
Definition le (x y : float) : bool := PrimFloat.leb x y.
Definition gt (x y : float) : bool := PrimFloat.ltb y x.
Definition ge (x y : float) : bool := PrimFloat.leb y x.

(** [max(x, y)] and [min(x, y)] of the builtins: the first argument is kept
    unless the second is strictly greater (smaller). *)
Definition max (x y : float) : float := if gt y x then y else x.
Definition min (x y : float) : float := if lt y x then y else x.

(** *** [str] *)

Definition char := N.
Definition str := list char.

(** UTF-8 decoding of a source literal. *)
Fixpoint utf8 (bs : list N) : str :=
  match bs with
  | [] => []
  | b0 :: r0 =>
    if (b0 <? 128)%N then b0 :: utf8 r0 else
    match r0 with
    | [] => [b0]
    | b1 :: r1 =>
      if (b0 <? 224)%N then ((b0 - 192) * 64 + (b1 - 128))%N :: utf8 r1 else
      match r1 with
      | [] => [b0]
      | b2 :: r2 =>
        if (b0 <? 240)%N
        then ((b0 - 224) * 4096 + (b1 - 128) * 64 + (b2 - 128))%N :: utf8 r2
        else
        match r2 with
        | [] => [b0]
        | b3 :: r3 =>
            ((b0 - 240) * 262144 + (b1 - 128) * 4096 + (b2 - 128) * 64 + (b3 - 128))%N
              :: utf8 r3
        end
      end
    end
  end.

Definition u (s : string) : str :=
  utf8 (map (fun a => N_of_ascii a) (list_ascii_of_string s)).

Definition str_eqb (s t : str) : bool := bool_decide (s = t).

(** *** Character tables

    The tables cover ASCII, Latin-1 spacing and the Cyrillic block, which is
    what the service's diary entries are written in; any other code point is
    taken as a symbol without case. *)

(** [str.isspace] of one character, which is also the regex class [\s]. *)
Definition isspace (c : char) : bool :=
  ((9 <=? c) && (c <=? 13) || (28 <=? c) && (c <=? 32) || (c =? 133) || (c =? 160)
   || (c =? 5760) || (8192 <=? c) && (c <=? 8202) || (c =? 8232) || (c =? 8233)
   || (c =? 8239) || (c =? 8287) || (c =? 12288))%N.

(** The regex class [\d]. *)
Definition isdigit (c : char) : bool := ((48 <=? c) && (c <=? 57))%N.

Definition isupper_ascii (c : char) : bool := ((65 <=? c) && (c <=? 90))%N.
Definition islower_ascii (c : char) : bool := ((97 <=? c) && (c <=? 122))%N.
(** Cyrillic capitals: U+0400..U+040F and U+0410..U+042F. *)
Definition isupper_cyr (c : char) : bool := ((1024 <=? c) && (c <=? 1071))%N.
(** Cyrillic small letters: U+0430..U+044F and U+0450..U+045F. *)
Definition islower_cyr (c : char) : bool := ((1072 <=? c) && (c <=? 1119))%N.

(** The regex class [\w]: alphanumeric or underscore. *)
Definition isword (c : char) : bool :=
  isdigit c || isupper_ascii c || islower_ascii c || (c =? 95)%N
  || isupper_cyr c || islower_cyr c.

Definition lower_char (c : char) : char :=
  if isupper_ascii c then (c + 32)%N
  else if ((1024 <=? c) && (c <=? 1039))%N then (c + 80)%N
  else if ((1040 <=? c) && (c <=? 1071))%N then (c + 32)%N
  else c.

Definition upper_char (c : char) : char :=
  if islower_ascii c then (c - 32)%N
  else if ((1072 <=? c) && (c <=? 1103))%N then (c - 32)%N
  else if ((1104 <=? c) && (c <=? 1119))%N then (c - 80)%N
  else c.

(** [s.lower()] *)
Definition lower (s : str) : str := map lower_char s.

(** [s.capitalize()]: first character upper-cased, the rest lower-cased. *)
Definition capitalize (s : str) : str :=
  match s with
  | [] => []
  | c :: r => upper_char c :: lower r
  end.

(** [s.lstrip()], [s.rstrip()], [s.strip()] *)
Fixpoint lstrip (s : str) : str :=
  match s with
  | c :: r => if isspace c then lstrip r else s
  | [] => []
  end.

Fixpoint rstrip (s : str) : str :=
  match s with
  | [] => []
  | c :: r =>
      match rstrip r with
      | [] => if isspace c then [] else [c]
      | r' => c :: r'
      end
  end.

Definition strip (s : str) : str := rstrip (lstrip s).

(** [s.startswith(p)] *)
Fixpoint startswith (p s : str) : bool :=
  match p, s with
  | [], _ => true
  | _ :: _, [] => false
  | a :: p', b :: s' => (a =? b)%N && startswith p' s'
  end.

(** [p in s] *)
Fixpoint contains (p s : str) : bool :=
  startswith p s ||
  match s with
  | [] => false
  | _ :: s' => contains p s'
  end.

(** [s.replace(old, new)]: every non-overlapping occurrence, left to right.
    An empty [old] inserts [new] before every character and at the end. *)
Fixpoint replace_fuel (fuel : nat) (old new s : str) : str :=
  match fuel with
  | O => s
  | S fuel' =>
      match s with
      | [] => []
      | c :: r =>
          if startswith old s
          then new ++ replace_fuel fuel' old new (drop (length old) s)
          else c :: replace_fuel fuel' old new r
      end
  end.

Definition replace (old new s : str) : str :=
  match old with
  | [] => new ++ flat_map (fun c => c :: new) s
  | _ :: _ => replace_fuel (length s) old new s
  end.

(** [s[i:j]] for indices within [0, len(s)] or beyond (slices clip). *)
Definition slice (i j : nat) (s : str) : str := take (j - i) (drop i s).

End Py.

Export Py.


(* ===================================================================== *)
(** ** Regular expressions

    The patterns of the source are written in the syntax tree below and run
    by a backtracking matcher with the priorities of Python's [re]: ordered
    alternation, greedy repetition, leftmost match.  The flag
    [re.IGNORECASE] is folded into the character predicates. *)
(* ===================================================================== *)

Module Re.

Inductive re : Type :=
| Chr (p : char -> bool)                      (* one character of a class *)
| Seq (a b : re)
| Alt (a b : re)                              (* a|b *)
| Rep (a : re) (lo : nat) (hi : option nat)   (* a{lo,hi}, greedy *)
| Bnd                                         (* \b *)
| Grp (n : nat) (a : re).                     (* capturing group number n *)

(** Matcher state: the character before the cursor, the text after it and
    the groups captured so far. *)
Record mstate := MState {
  m_prev : option char;
  m_rest : str;
  m_caps : list (nat * str)
}.

Definition word_at (c : option char) : bool :=
  match c with
  | Some x => isword x
  | None => false
  end.

Definition under (hi : option nat) (i : nat) : bool :=
  match hi with
  | Some h => (i <? h)%nat
  | None => true
  end.

Section Repetition.
Context {A : Type}.
(** The matcher of the repeated pattern, the bounds and the continuation. *)
Variable body : mstate -> (mstate -> option A) -> option A.
Variable lo : nat.
Variable hi : option nat.
Variable k : mstate -> option A.

(** Greedy repetition: after [i] rounds, try one more round, which must
    consume something, and fall back to the continuation when [i] has
    reached [lo].  [fuel] bounds the rounds by the length of the text. *)
Fixpoint rep_loop (fuel i : nat) (st : mstate) {struct fuel} : option A :=
  let stop := if (lo <=? i)%nat then k st else None in
  match fuel with
  | O => stop
  | S fuel' =>
      if under hi i then
        match body st (fun st' =>
                if (length (m_rest st') <? length (m_rest st))%nat
                then rep_loop fuel' (S i) st' else None) with
        | Some x => Some x
        | None => stop
        end
      else stop
  end.

End Repetition.

Fixpoint run {A : Type} (r : re) (st : mstate) (k : mstate -> option A) : option A :=
  match r with
  | Chr p =>
      match m_rest st with
      | c :: rest => if p c then k (MState (Some c) rest (m_caps st)) else None
      | [] => None
      end
  | Seq a b => run a st (fun st' => run b st' k)
  | Alt a b =>
      match run a st k with
      | Some x => Some x
      | None => run b st k
      end
  | Rep a lo hi => rep_loop (run a) lo hi k (length (m_rest st)) O st
  | Bnd =>
      if xorb (word_at (m_prev st)) (word_at (head (m_rest st))) then k st else None
  | Grp n a =>
      run a st (fun st' =>
        k (MState (m_prev st') (m_rest st')
             ((n, take (length (m_rest st) - length (m_rest st')) (m_rest st))
                :: m_caps st')))
  end.

(** [pattern.match] at the cursor: the state after the match. *)
Definition match_at (r : re) (prev : option char) (s : str) : option mstate :=
  match run r (MState prev s []) Some with
  | Some st => if (length (m_rest st) <? length s)%nat then Some st else None
  | None => None
  end.

(** [m.group(n)] *)
Fixpoint group (n : nat) (caps : list (nat * str)) : option str :=
  match caps with
  | [] => None
  | (i, s) :: r => if (i =? n)%nat then Some s else group n r
  end.

(** [pattern.search(s)]: the leftmost match, as (start index, final state). *)
Fixpoint search_from (r : re) (prev : option char) (i : nat) (s : str)
  : option (nat * mstate) :=
  match match_at r prev s with
  | Some st => Some (i, st)
  | None =>
      match s with
      | [] => None
      | c :: s' => search_from r (Some c) (S i) s'
      end
  end.

Definition search (r : re) (s : str) : option (nat * mstate) :=
  search_from r None O s.

(** [pattern.sub(repl, s)]; [repl] receives the groups of each match. *)
Fixpoint sub_fuel (fuel : nat) (r : re) (repl : list (nat * str) -> str)
    (prev : option char) (s : str) : str :=
  match fuel with
  | O => s
  | S fuel' =>
      match match_at r prev s with
      | Some st => repl (m_caps st) ++ sub_fuel fuel' r repl (m_prev st) (m_rest st)
      | None =>
          match s with
          | [] => []
          | c :: s' => c :: sub_fuel fuel' r repl (Some c) s'
          end
      end
  end.

Definition sub (r : re) (repl : list (nat * str) -> str) (s : str) : str :=
  sub_fuel (S (length s)) r repl None s.

(** [pattern.split(s)] for a pattern without groups. *)
Fixpoint split_fuel (fuel : nat) (r : re) (prev : option char) (cur s : str)
  : list str :=
  match fuel with
  | O => [cur ++ s]
  | S fuel' =>
      match match_at r prev s with
      | Some st => cur :: split_fuel fuel' r (m_prev st) [] (m_rest st)
      | None =>
          match s with
          | [] => [cur]
          | c :: s' => split_fuel fuel' r (Some c) (cur ++ [c]) s'
          end
      end
  end.

Definition split (r : re) (s : str) : list str :=
  split_fuel (S (length s)) r None [] s.

(** [pattern.match] at the cursor for a pattern that ends in a lookahead
    [(?=[class])]: the class is tested on the character after the match, as
    the continuation of the matcher, so that a failed test backtracks. *)
Definition match_before (r : re) (look : char -> bool) (prev : option char) (s : str)
  : option mstate :=
  match run r (MState prev s [])
          (fun st => match m_rest st with
                     | c :: _ => if look c then Some st else None
                     | [] => None
                     end) with
  | Some st => if (length (m_rest st) <? length s)%nat then Some st else None
  | None => None
  end.

(** [pattern.split(s)] for such a pattern. *)
Fixpoint split_before_fuel (fuel : nat) (r : re) (look : char -> bool)
    (prev : option char) (cur s : str) : list str :=
  match fuel with
  | O => [cur ++ s]
  | S fuel' =>
      match match_before r look prev s with
      | Some st => cur :: split_before_fuel fuel' r look (m_prev st) [] (m_rest st)
      | None =>
          match s with
          | [] => [cur]
          | c :: s' => split_before_fuel fuel' r look (Some c) (cur ++ [c]) s'
          end
      end
  end.

Definition split_before (r : re) (look : char -> bool) (s : str) : list str :=
  split_before_fuel (S (length s)) r look None [] s.

(** *** Pattern notation *)

(** The empty pattern, as a repetition taken zero times. *)
Definition eps : re := Rep (Chr (fun _ => false)) 0 (Some 0%nat).

(** Concatenation of the parts of a pattern, left to right. *)
Fixpoint cat (l : list re) : re :=
  match l with
  | [] => eps
  | [a] => a
  | a :: l' => Seq a (cat l')
  end.

(** Alternation of the branches of a pattern, in their order. *)
Fixpoint alt (l : list re) : re :=
  match l with
  | [] => Chr (fun _ => false)
  | [a] => a
  | a :: l' => Alt a (alt l')
  end.

(** A character class given by its members, [[abc]]. *)
Definition any_of (cs : string) : re := Chr (fun c => bool_decide (c ∈ u cs)).
Definition lit1 (c : char) : re := Chr (fun x => (x =? c)%N).
(** A literal character under [re.IGNORECASE]. *)
Definition ilit1 (c : char) : re := Chr (fun x => (lower_char x =? lower_char c)%N).
(** A literal word, and a literal word under [re.IGNORECASE]. *)
Definition lit (s : string) : re := cat (map lit1 (u s)).
Definition ilit (s : string) : re := cat (map ilit1 (u s)).

Definition opt (a : re) : re := Rep a 0 (Some 1%nat).               (* a? *)
Definition star (a : re) : re := Rep a 0 None.                      (* a* *)
Definition plus (a : re) : re := Rep a 1 None.                      (* a+ *)
Definition times (lo hi : nat) (a : re) : re := Rep a lo (Some hi). (* a{lo,hi} *)
Definition at_least (lo : nat) (a : re) : re := Rep a lo None.      (* a{lo,} *)

Definition d : re := Chr isdigit.      (* \d *)
Definition s_ : re := Chr isspace.     (* \s *)

(** A replacement that does not look at the groups. *)
Definition const (s : string) : list (nat * str) -> str := fun _ => u s.

End Re.

(* ===================================================================== *)
(** ** Exceptions *)
(* ===================================================================== *)

(** The result of a call that may raise. *)
Inductive exn (A : Type) : Type :=
| Ok (a : A)
| Raised.
Arguments Ok {A} a.
Arguments Raised {A}.

#[export] Instance exn_ret : MRet exn := fun A a => Ok a.
#[export] Instance exn_bind : MBind exn := fun A B f m =>
  match m with
  | Ok a => f a
  | Raised => Raised
  end.

(* ===================================================================== *)
(** ** services/preprocessor.py *)
(* ===================================================================== *)

Module Preprocessor.
Import Re.

Record TextPreprocessor := { enabled : bool }.

(** [\b[A-Za-z0-9._%+-]+@[A-Za-z0-9.-]+\.[A-Z|a-z]{2,}\b] *)
Definition _email_pattern : re :=
  cat [Bnd;
       plus (Chr (fun c => isupper_ascii c || islower_ascii c || isdigit c
                           || bool_decide (c ∈ u "._%+-")));
       lit "@";
       plus (Chr (fun c => isupper_ascii c || islower_ascii c || isdigit c
                           || bool_decide (c ∈ u ".-")));
       lit ".";
       at_least 2 (Chr (fun c => isupper_ascii c || islower_ascii c
                                 || bool_decide (c ∈ u "|")));
       Bnd].

(** [(\+?\d{1,3}[-.\s]?)?\(?\d{1,4}\)?[-.\s]?\d{1,4}[-.\s]?\d{1,9}] *)
Definition _phone_pattern : re :=
  let sep := Chr (fun c => bool_decide (c ∈ u "-.") || isspace c) in
  cat [opt (Grp 1 (cat [opt (lit "+"); times 1 3 d; opt sep]));
       opt (lit "("); times 1 4 d; opt (lit ")"); opt sep;
       times 1 4 d; opt sep; times 1 9 d].

(** [\b\d{4}\s?\d{6}\b] *)
Definition _passport_pattern : re :=
  cat [Bnd; times 4 4 d; opt s_; times 6 6 d; Bnd].

(** [\b\d{4}[-\s]?\d{4}[-\s]?\d{4}[-\s]?\d{4}\b] *)
Definition _card_pattern : re :=
  let sep := Chr (fun c => bool_decide (c ∈ u "-") || isspace c) in
  cat [Bnd; times 4 4 d; opt sep; times 4 4 d; opt sep; times 4 4 d; opt sep;
       times 4 4 d; Bnd].

(** [\bИНН:?\s*\d{10,12}\b] with [re.IGNORECASE], written inline in
    [_redact_pii]. *)
Definition _inn_redaction_pattern : re :=
  cat [Bnd; ilit "ИНН"; opt (lit ":"); star s_; times 10 12 d; Bnd].

(** [\s+], [([!?.,]){4,}] and [[^\w\s]]. *)
Definition _whitespace : re := plus s_.
Definition _excessive_punctuation : re := at_least 4 (Grp 1 (any_of "!?.,")).
Definition _punctuation : re := Chr (fun c => negb (isword c || isspace c)).

(** The replacement [r'\1\1\1']. *)
Definition _group1_thrice (caps : list (nat * str)) : str :=
  let g := default [] (group 1 caps) in g ++ g ++ g.

Definition _clean_text (text : str) : str :=
  (* Normalize whitespace *)
  let text := sub _whitespace (const " ") text in
  (* Remove excessive punctuation (more than 3 in a row) *)
  let text := sub _excessive_punctuation _group1_thrice text in
  (* Strip leading/trailing whitespace *)
  strip text.

Definition normalize_text (text : str) : str :=
  let text := lower text in
  let text := sub _punctuation (const "") text in
  let text := sub _whitespace (const " ") text in
  strip text.

(** [[.!?]+\s+(?=[А-ЯA-Z])]: the pattern before the lookahead, and the class
    of the lookahead. *)
Definition _sentence_end : re := cat [plus (any_of ".!?"); plus s_].
Definition _capital (c : char) : bool :=
  ((1040 <=? c) && (c <=? 1071))%N || isupper_ascii c.

Definition split_sentences (text : str) : list str :=
  (* Split on period, exclamation, question mark followed by space and capital letter *)
  let sentences := split_before _sentence_end _capital text in
  (* Clean up sentences *)
  map strip (filter (fun s => strip s <> []) sentences).

Section WithPhoneNumbers.

(** [phonenumbers.PhoneNumberMatcher(text, "RU")] of the third-party library:
    the (start, end) offsets of the phone numbers it finds in [text], in
    order, or an exception. *)
Variable PhoneNumberMatcher : str -> exn (list (nat * nat)).

(** The loop rebinds [text] and then slices the rebound text with offsets
    that the matcher computed on the text it was given. *)
Definition _redact_phone_numbers (text : str) : str :=
  match PhoneNumberMatcher text with
  | Ok matches =>
      fold_left
        (fun text m =>
           let phone_str := slice (fst m) (snd m) text in
           replace phone_str (u "<PHONE>") text)
        matches text
  | Raised =>
      (* Fallback to regex if phonenumbers fails *)
      sub _phone_pattern (const "<PHONE>") text
  end.

Definition _redact_pii (text : str) : str :=
  let text := sub _email_pattern (const "<EMAIL>") text in
  let text := _redact_phone_numbers text in
  let text := sub _passport_pattern (const "<PASSPORT>") text in
  let text := sub _card_pattern (const "<CARD>") text in
  sub _inn_redaction_pattern (const "<INN>") text.

Definition preprocess (self : TextPreprocessor) (text : str) : str :=
  match text with
  | [] => []
  | _ =>
      let text := _clean_text text in
      if enabled self then _redact_pii text else text
  end.

End WithPhoneNumbers.

End Preprocessor.

(* ===================================================================== *)
(** ** domain/models.py and config/settings.py *)
(* ===================================================================== *)

Module Models.

Inductive ActionType : Set := ACTIVITY | ACHIEVEMENT.
Inductive TimeSource : Set := TEXT | HISTORY | MODEL | DEFAULT.

#[export] Instance ActionType_eq_dec : EqDecision ActionType.
Proof. solve_decision. Defined.
#[export] Instance TimeSource_eq_dec : EqDecision TimeSource.
Proof. solve_decision. Defined.

(** [x or default] on an [Optional[int]]: [None] and [0] are both falsy. *)
Definition int_or (x : option Z) (default : Z) : Z :=
  match x with
  | Some v => if v =? 0 then default else v
  | None => default
  end.

(** Raw action before post-processing. *)
Module RawAction.
Record t := mk {
  category : str;
  subcategory : option str;
  action : str;
  type : ActionType;
  estimated_time_minutes : option Z;
  confidence : float;                   (* Field(ge=0.0, le=1.0) *)
  achievement_weight : option Z;
  source : str
}.

(** The field constraint that [RawAction(...)] checks. *)
Definition valid (a : t) : bool := ge (confidence a) 0 && le (confidence a) 1.

(** [RawAction(...)]: the model, or a [ValidationError]. *)
Definition new (a : t) : exn t := if valid a then Ok a else Raised.
End RawAction.

(** A single action extracted from text. *)
Module Action.
Record t := mk {
  category : str;
  subcategory : option str;
  action : str;
  type : ActionType;
  estimated_time_minutes : Z;           (* Field(..., ge=0) *)
  time_source : TimeSource;
  confidence : float;                   (* Field(..., ge=0.0, le=1.0) *)
  achievement_weight : option Z;        (* Field(None, ge=0) *)
  points : float                        (* Field(..., ge=0.0) *)
}.

(** The field constraints that [Action(...)] checks. *)
Definition valid (a : t) : bool :=
  (0 <=? estimated_time_minutes a)
  && ge (confidence a) 0 && le (confidence a) 1
  && match achievement_weight a with Some w => 0 <=? w | None => true end
  && ge (points a) 0.

(** [Action(...)]: the model, or a [ValidationError]. *)
Definition new (a : t) : exn t := if valid a then Ok a else Raised.

(** [a.model_copy(update={...})] does not validate; the updates the source
    makes are written as record updates. *)
Definition with_action (a : t) (x : str) : t :=
  mk (category a) (subcategory a) x (type a) (estimated_time_minutes a)
     (time_source a) (confidence a) (achievement_weight a) (points a).
Definition with_estimated_time_minutes (a : t) (x : Z) : t :=
  mk (category a) (subcategory a) (action a) (type a) x
     (time_source a) (confidence a) (achievement_weight a) (points a).
Definition with_confidence (a : t) (x : float) : t :=
  mk (category a) (subcategory a) (action a) (type a) (estimated_time_minutes a)
     (time_source a) x (achievement_weight a) (points a).
Definition with_points (a : t) (x : float) : t :=
  mk (category a) (subcategory a) (action a) (type a) (estimated_time_minutes a)
     (time_source a) (confidence a) (achievement_weight a) x.
End Action.

(** Result from a parser (heuristic or LLM). *)
Record RawParseResult := {
  actions : list RawAction.t;
  confidence : float;
  latency_ms : Z;
  errors : list str
}.

(** Metadata about the analysis process. *)
Record AnalysisMeta := {
  used_heuristics : list str;
  used_llm : bool;
  llm_latency_ms : option Z;
  heuristic_latency_ms : option Z;
  meta_errors : list str
}.

(** A calendar date, as its ordinal. *)
Definition date := Z.

(** Complete analysis result. *)
Module AnalysisResult.
Record t := mk {
  user_id : Z;
  date : Models.date;
  raw_text : option str;
  actions : list Action.t;
  meta : AnalysisMeta
}.
End AnalysisResult.

(** The settings the pipeline reads, with their defaults. *)
Record Settings := {
  cache_ttl_seconds : Z;
  cache_enabled : bool;
  heuristic_confidence_threshold : float;
  use_llm_fallback : bool;
  default_time_minutes : Z;
  achievement_default_weight : Z;
  pii_redaction_enabled : bool
}.

Definition default_settings : Settings := {|
  cache_ttl_seconds := 604800;
  cache_enabled := true;
  heuristic_confidence_threshold := 0.8;
  use_llm_fallback := true;
  default_time_minutes := 10;
  achievement_default_weight := 10;
  pii_redaction_enabled := true
|}.

End Models.
Export Models.

(* ===================================================================== *)
(** ** interfaces/protocols.py *)
(* ===================================================================== *)

(** [HistoryLookupService]: a store [H] with a lookup and a recording
    operation.  A recording call returns the store it leaves behind. *)
Class HistoryLookupService (H : Type) := {
  get_average_time : H -> Z -> str -> exn (option Z);
  record_action : H -> Z -> str -> Z -> H
}.

(** [CacheService]: a store [C] of strings under string keys. *)
Class CacheService (C : Type) := {
  cache_get : C -> str -> option str;
  cache_set : C -> str -> str -> option Z -> C;
  cache_delete : C -> str -> C;
  generate_cache_key : Z -> str -> str
}.

(* ===================================================================== *)
(** ** services/history_service.py *)
(* ===================================================================== *)

(** The running mean of both stores:
    [(avg_time * occurrences + time_minutes) / (occurrences + 1)]. *)
Definition incremental_average (avg_time : float) (occurrences time_minutes : Z) : float :=
  ((avg_time * float_of_int occurrences + float_of_int time_minutes)
   / float_of_int (occurrences + 1))%float.

(** [int(avg)] of a stored average. *)
Definition average_as_int (avg : float) : exn (option Z) :=
  match int_of_float avg with
  | Some n => Ok (Some n)
  | None => Raised
  end.

Module InMemoryHistoryService.

(** [self.data: Dict[tuple[int, str], tuple[float, int]]] *)
Definition t := gmap (Z * str) (float * Z).

Definition empty : t := ∅.

Definition get_average_time (self : t) (user_id : Z) (action_normalized : str)
  : exn (option Z) :=
  let normalized := Preprocessor.normalize_text action_normalized in
  let key := (user_id, normalized) in
  match self !! key with
  | Some (avg_time, _) => average_as_int avg_time
  | None =>
      (* Check global templates (user_id = 0) *)
      let global_key := (0, normalized) in
      match self !! global_key with
      | Some (avg_time, _) => average_as_int avg_time
      | None => Ok None
      end
  end.

Definition record_action (self : t) (user_id : Z) (action_normalized : str)
    (time_minutes : Z) : t :=
  let normalized := Preprocessor.normalize_text action_normalized in
  let key := (user_id, normalized) in
  match self !! key with
  | Some (avg_time, occurrences) =>
      let new_avg := incremental_average avg_time occurrences time_minutes in
      <[key := (new_avg, occurrences + 1)]> self
  | None => <[key := (float_of_int time_minutes, 1)]> self
  end.

#[export] Instance service : HistoryLookupService t := {
  get_average_time := get_average_time;
  record_action := record_action
}.

End InMemoryHistoryService.

Module SQLiteHistoryService.

(** A row of the table [action_templates]; [user_id] is a nullable column.
    The columns [id] and [last_seen] are left out: no query reads them. *)
Record row := {
  user_id : option Z;
  normalized_text : str;
  avg_time_minutes : float;
  occurrences : Z
}.

(** The table, in insertion order. *)
Definition t := list row.

Definition empty : t := [].

(** [WHERE user_id = ? AND normalized_text = ?] *)
Definition is_row_of (uid : Z) (normalized : str) (r : row) : bool :=
  bool_decide (user_id r = Some uid) && bool_decide (normalized_text r = normalized).

(** [WHERE user_id IS NULL AND normalized_text = ?] *)
Definition is_null_row_of (normalized : str) (r : row) : bool :=
  bool_decide (user_id r = None) && bool_decide (normalized_text r = normalized).

(** [SELECT avg_time_minutes FROM action_templates
     WHERE (user_id = ? OR user_id IS NULL) AND normalized_text = ?
     ORDER BY user_id DESC NULLS LAST LIMIT 1]:
    a row of the user comes before any row whose [user_id] is NULL. *)
Definition select_average (self : t) (uid : Z) (normalized : str) : option row :=
  match List.find (is_row_of uid normalized) self with
  | Some r => Some r
  | None => List.find (is_null_row_of normalized) self
  end.

Definition get_average_time (self : t) (uid : Z) (action_normalized : str)
  : exn (option Z) :=
  let normalized := Preprocessor.normalize_text action_normalized in
  match select_average self uid normalized with
  | Some r => average_as_int (avg_time_minutes r)
  | None => Ok None
  end.

Definition record_action (self : t) (uid : Z) (action_normalized : str)
    (time_minutes : Z) : t :=
  let normalized := Preprocessor.normalize_text action_normalized in
  (* Try to get existing record *)
  match List.find (is_row_of uid normalized) self with
  | Some r =>
      (* Update with incremental average *)
      let new_avg := incremental_average (avg_time_minutes r) (occurrences r) time_minutes in
      let new_occurrences := occurrences r + 1 in
      map (fun r' =>
             if is_row_of uid normalized r'
             then {| user_id := user_id r'; normalized_text := normalized_text r';
                     avg_time_minutes := new_avg; occurrences := new_occurrences |}
             else r') self
  | None =>
      (* Insert new record *)
      self ++ [{| user_id := Some uid; normalized_text := normalized;
                  avg_time_minutes := float_of_int time_minutes; occurrences := 1 |}]
  end.

(** The dictionary that [get_user_stats] returns. *)
Record user_stats := { total_templates : Z; total_actions : Z }.

(** [SELECT COUNT, SUM(occurrences) FROM action_templates WHERE user_id = ?]
    counts the rows of the user and adds up their occurrences; the sum over
    no rows is NULL, which [row[1] or 0] reads as 0. *)
Definition get_user_stats (self : t) (uid : Z) : user_stats :=
  let rows := List.filter (fun r => bool_decide (user_id r = Some uid)) self in
  let count := Z.of_nat (length rows) in
  let sum :=
    match rows with
    | [] => None
    | _ => Some (fold_right Z.add 0 (map occurrences rows))
    end in
  {| total_templates := int_or (Some count) 0; total_actions := int_or sum 0 |}.

#[export] Instance service : HistoryLookupService t := {
  get_average_time := get_average_time;
  record_action := record_action
}.

End SQLiteHistoryService.

(* ===================================================================== *)
(** ** services/fusion_service.py *)
(* ===================================================================== *)

Module FusionService.

Section Fusion.
Context {H : Type} {HS : HistoryLookupService H}.

(** [self.history_service] and [self.settings]. *)
Variable history_service : H.
Variable settings : Settings.

Definition _merge_actions (heuristic_actions llm_actions : list RawAction.t)
  : list RawAction.t :=
  (* If LLM has results, prefer those *)
  match llm_actions with
  | _ :: _ => llm_actions
  | [] => heuristic_actions
  end.

Definition _determine_time (user_id : Z) (raw_action : RawAction.t)
  : exn (Z * TimeSource) :=
  (* 1. Text: if time is explicitly provided and confidence is high *)
  match RawAction.estimated_time_minutes raw_action,
        ge (RawAction.confidence raw_action) 0.7 with
  | Some t, true => Ok (t, TEXT)
  | _, _ =>
      (* 2. History: check historical data *)
      let normalized_action := Preprocessor.normalize_text (RawAction.action raw_action) in
      history_time ← get_average_time history_service user_id normalized_action;
      match history_time with
      | Some t => Ok (t, HISTORY)
      | None =>
          (* 3. Model: use LLM/heuristic estimate if available *)
          match RawAction.estimated_time_minutes raw_action with
          | Some t => Ok (t, MODEL)
          | None =>
              (* 4. Default: fallback to default time *)
              Ok (default_time_minutes settings, DEFAULT)
          end
      end
  end.

Definition _enrich_action (user_id : Z) (raw_action : RawAction.t) : exn Action.t :=
  '(time_minutes, time_source) ← _determine_time user_id raw_action;
  (* Ensure achievement weight *)
  let achievement_weight :=
    match RawAction.type raw_action, RawAction.achievement_weight raw_action with
    | ACHIEVEMENT, None => Some (achievement_default_weight settings)
    | _, w => w
    end in
  (* Calculate points *)
  let points :=
    match RawAction.type raw_action with
    | ACHIEVEMENT =>
        float_of_int (int_or achievement_weight (achievement_default_weight settings))
    | ACTIVITY => (float_of_int time_minutes / 10)%float
    end in
  Action.new
    (Action.mk (RawAction.category raw_action) (RawAction.subcategory raw_action)
       (RawAction.action raw_action) (RawAction.type raw_action)
       time_minutes time_source (RawAction.confidence raw_action)
       achievement_weight points).

(** The loop of [fuse_results]; the first exception ends it. *)
Fixpoint _enrich_all (user_id : Z) (merged_actions : list RawAction.t)
  : exn (list Action.t) :=
  match merged_actions with
  | [] => Ok []
  | raw_action :: rest =>
      action ← _enrich_action user_id raw_action;
      final_actions ← _enrich_all user_id rest;
      Ok (action :: final_actions)
  end.

Definition fuse_results (user_id : Z) (heuristic_actions llm_actions : list RawAction.t)
    (heuristic_latency_ms llm_latency_ms : Z) : exn (list Action.t) :=
  (* Merge actions (prefer LLM for duplicates) *)
  let merged_actions := _merge_actions heuristic_actions llm_actions in
  (* Enrich with time estimation *)
  _enrich_all user_id merged_actions.

Definition should_use_llm (heuristic_confidence : float) (heuristic_action_count : Z)
  : bool :=
  (* Use LLM if heuristics found nothing *)
  if heuristic_action_count =? 0 then true
  (* Use LLM if heuristic confidence is low *)
  else if lt heuristic_confidence (heuristic_confidence_threshold settings) then true
  (* Skip LLM if heuristics are confident *)
  else false.

End Fusion.

End FusionService.

(* ===================================================================== *)
(** ** services/postprocessor.py *)
(* ===================================================================== *)

Module PostprocessorService.

Record t := { similarity_threshold : float }.

(** [PostprocessorService()] *)
Definition default : t := {| similarity_threshold := 0.85 |}.

(** The synonym table of [_apply_synonyms], in the order of the dict. *)
Definition synonyms : list (str * str) :=
  Eval vm_compute in
  [(u "зале", u "зал"); (u "спортзале", u "зал"); (u "качалке", u "зал");
   (u "gym", u "зал"); (u "книжку", u "книгу"); (u "учебник", u "книгу")].

Definition _apply_synonyms (text : str) : str :=
  let text_lower := lower text in
  fold_left
    (fun text '(old, new) =>
       if contains old text_lower
       then replace (capitalize old) (capitalize new) (replace old new text)
       else text)
    synonyms text.

Definition _normalize_actions (actions : list Action.t) : list Action.t :=
  map (fun action =>
         (* Clean up action text *)
         let normalized_text := strip (Action.action action) in
         (* Apply synonyms/lemmatization if needed *)
         let normalized_text := _apply_synonyms normalized_text in
         Action.with_action action normalized_text)
      actions.

(** [x or y] on two [Optional[str]]: [None] and the empty string are falsy. *)
Definition str_or (x y : option str) : option str :=
  match x with
  | Some (_ :: _) => x
  | _ => y
  end.

Definition time_priority (s : TimeSource) : Z :=
  match s with
  | TEXT => 4
  | HISTORY => 3
  | MODEL => 2
  | DEFAULT => 1
  end.

Definition _merge_actions (action1 action2 : Action.t) : exn Action.t :=
  (* Determine which action has better time source *)
  let better_time_action :=
    if time_priority (Action.time_source action2) <=? time_priority (Action.time_source action1)
    then action1 else action2 in
  (* Use action with higher confidence for other fields *)
  let better_confidence_action :=
    if ge (Action.confidence action1) (Action.confidence action2)
    then action1 else action2 in
  (* Merge: use better time source for time, better confidence for rest *)
  Action.new
    (Action.mk
       (Action.category better_confidence_action)
       (str_or (Action.subcategory better_confidence_action)
               (Action.subcategory better_time_action))
       (Action.action better_confidence_action)
       (Action.type better_confidence_action)
       (Action.estimated_time_minutes better_time_action)
       (Action.time_source better_time_action)
       (Py.max (Action.confidence action1) (Action.confidence action2))
       (Action.achievement_weight better_confidence_action)
       (Action.points better_time_action)).

Definition _validate_action (action : Action.t) : Action.t :=
  (* Ensure time is positive *)
  let action :=
    if Action.estimated_time_minutes action <? 0
    then Action.with_estimated_time_minutes action 10 else action in
  (* Ensure confidence is in range *)
  let action :=
    if lt (Action.confidence action) 0 then Action.with_confidence action 0
    else if gt (Action.confidence action) 1 then Action.with_confidence action 1
    else action in
  (* Recalculate points to ensure consistency *)
  let correct_points :=
    match Action.type action with
    | ACHIEVEMENT => float_of_int (int_or (Action.achievement_weight action) 10)
    | ACTIVITY => (float_of_int (Action.estimated_time_minutes action) / 10)%float
    end in
  if gt (abs (Action.points action - correct_points)) 0.01
  then Action.with_points action correct_points
  else action.

Definition _validate_actions (actions : list Action.t) : list Action.t :=
  map _validate_action actions.

Section Similarity.

(** [rapidfuzz.fuzz.ratio] of the third-party library: a similarity of two
    strings in percent. *)
Variable fuzz_ratio : str -> str -> float.
Variable self : t.

Definition _are_similar (action1 action2 : Action.t) : bool :=
  (* Must be same category and type *)
  if negb (bool_decide (Action.category action1 = Action.category action2)) then false
  else if negb (bool_decide (Action.type action1 = Action.type action2)) then false
  else
    (* Check text similarity *)
    let similarity :=
      (fuzz_ratio (lower (Action.action action1)) (lower (Action.action action2))
       / 100)%float in
    ge similarity (similarity_threshold self).

(** One turn of the outer loop of [_deduplicate_actions] on [unique_actions]:
    [action] is merged into the first entry it is similar to, in the place
    of that entry, or appended when there is none.  (The source finds the
    place with [unique_actions.index(existing)]; no earlier entry is equal
    to [existing], for it would have been similar to [action] itself and
    ended the search.) *)
Fixpoint _add_unique (unique_actions : list Action.t) (action : Action.t)
  : exn (list Action.t) :=
  match unique_actions with
  | [] => Ok [action]
  | existing :: rest =>
      if _are_similar action existing
      then
        (* Merge with existing (keep the one with better time source) *)
        merged ← _merge_actions existing action;
        Ok (merged :: rest)
      else
        rest' ← _add_unique rest action;
        Ok (existing :: rest')
  end.

Fixpoint _deduplicate_loop (unique_actions actions : list Action.t)
  : exn (list Action.t) :=
  match actions with
  | [] => Ok unique_actions
  | action :: rest =>
      unique_actions' ← _add_unique unique_actions action;
      _deduplicate_loop unique_actions' rest
  end.

Definition _deduplicate_actions (actions : list Action.t) : exn (list Action.t) :=
  if (length actions <=? 1)%nat then Ok actions
  else _deduplicate_loop [] actions.

Definition process (actions : list Action.t) : exn (list Action.t) :=
  match actions with
  | [] => Ok []
  | _ =>
      (* Normalize action texts *)
      let actions := _normalize_actions actions in
      (* Deduplicate similar actions *)
      actions ← _deduplicate_actions actions;
      (* Validate and fix any issues *)
      Ok (_validate_actions actions)
  end.

End Similarity.

(** *** rapidfuzz

    [fuzz.ratio] as rapidfuzz documents it: the normalized Indel similarity
    [1 - distance / (len1 + len2)] in percent, where the Indel distance
    counts insertions and deletions, [len1 + len2 - 2 * LCS]. *)

Fixpoint lcs_row (x : char) (s2 : str) (prev : list nat) (diag left : nat) : list nat :=
  match s2, prev with
  | y :: s2', up :: prev' =>
      let here := if (x =? y)%N then S diag else Nat.max up left in
      here :: lcs_row x s2' prev' up here
  | _, _ => []
  end.

(** Length of a longest common subsequence, row by row. *)
Definition lcs_length (s1 s2 : str) : nat :=
  List.last (fold_left (fun row x => lcs_row x s2 row 0 0) s1 (repeat 0%nat (length s2)))
            0%nat.

Definition indel_distance (s1 s2 : str) : nat :=
  length s1 + length s2 - 2 * lcs_length s1 s2.

Definition indel_ratio (s1 s2 : str) : float :=
  let maximum := (length s1 + length s2)%nat in
  let norm_dist :=
    if (maximum =? 0)%nat then 0%float
    else (float_of_int (Z.of_nat (indel_distance s1 s2))
          / float_of_int (Z.of_nat maximum))%float in
  ((1 - norm_dist) * 100)%float.

End PostprocessorService.

(* ===================================================================== *)
(** ** services/llm_parser.py *)
(* ===================================================================== *)

(** The OpenAI-backed parser answers with whatever the remote model sends;
    the analyzer is given it as a function of the text.  Of the parser
    itself the conversion of a validated answer into raw actions is embedded
    here; the mock parser of the source follows it. *)
Module OpenAILLMParser.

(** Schema for LLM response action. *)
Module LLMActionSchema.
Record t := mk {
  category : str;
  subcategory : option str;
  action : str;
  type : str;                           (* will be validated to ActionType *)
  estimated_time_minutes : Z;
  confidence : float;
  achievement_weight : option Z
}.
End LLMActionSchema.

(** [ActionType(value)]: the member with that value, or a [ValueError]. *)
Definition ActionType_of_value (value : str) : exn ActionType :=
  if str_eqb value (u "activity") then Ok ACTIVITY
  else if str_eqb value (u "achievement") then Ok ACHIEVEMENT
  else Raised.

(** The body of the loop of [_parse_response]. *)
Definition _convert_action (llm_action : LLMActionSchema.t) : exn RawAction.t :=
  (* Validate and convert type *)
  let action_type :=
    match ActionType_of_value (LLMActionSchema.type llm_action) with
    | Ok action_type => action_type
    | Raised => ACTIVITY  (* Default to activity if invalid *)
    end in
  RawAction.new
    (RawAction.mk (LLMActionSchema.category llm_action)
       (LLMActionSchema.subcategory llm_action)
       (LLMActionSchema.action llm_action)
       action_type
       (Some (LLMActionSchema.estimated_time_minutes llm_action))
       (Py.min (Py.max (LLMActionSchema.confidence llm_action) 0) 1)
       (LLMActionSchema.achievement_weight llm_action)
       (u "llm")).

(** [_parse_response] from the validated [LLMResponseSchema] on: the actions
    of the schema converted one by one; the first exception ends the loop.
    (Decoding the JSON content and validating it against the schema are
    json's and pydantic's.) *)
Fixpoint _parse_response (parsed_actions : list LLMActionSchema.t)
  : exn (list RawAction.t) :=
  match parsed_actions with
  | [] => Ok []
  | llm_action :: rest =>
      action ← _convert_action llm_action;
      actions ← _parse_response rest;
      Ok (action :: actions)
  end.

End OpenAILLMParser.

Module MockLLMParser.

Definition parse_with_llm (text : str) : RawParseResult :=
  {| actions := []; confidence := 0; latency_ms := 10; errors := [] |}.

End MockLLMParser.

(* ===================================================================== *)
(** ** services/heuristic_parser.py *)
(* ===================================================================== *)

Module HeuristicParser.
Import Re.

(** One entry of [_build_category_keywords]: the category, its keywords and
    its subcategories with their keywords, all in the order of the dicts. *)
Definition category_entry : Type := str * (list str * list (str * list str)).

Definition us (l : list string) : list str := map u l.

Definition _category_keywords : list category_entry :=
  Eval vm_compute in
  [(u "спорт",
    (us ["зал"; "тренир"; "спорт"; "бег"; "качал"; "пресс";
         "отжим"; "подтяг"; "присед"; "кардио"; "йога"; "пилатес";
         "бассейн"; "плав"; "велосипед"; "фитнес"],
     [(u "бодибилдинг", us ["качал"; "пожал"; "жим"; "присед"; "становая"]);
      (u "кардио", us ["бег"; "бежал"; "кардио"; "велосипед"]);
      (u "йога", us ["йога"; "медитац"])]));
   (u "учёба",
    (us ["учи"; "читал"; "книг"; "курс"; "лекци"; "учёб";
         "урок"; "задач"; "домашк"; "экзамен"; "конспект";
         "изуча"; "разбир"; "математ"; "програм"; "учебник"],
     [(u "математика", us ["математ"; "алгебр"; "геометр"; "матан"]);
      (u "программирование", us ["програм"; "код"; "python"; "java"; "алгоритм"]);
      (u "языки", us ["английск"; "немецк"; "французск"; "язык"])]));
   (u "готовка",
    (us ["готов"; "приготов"; "сварил"; "пожарил"; "испёк";
         "кухн"; "рецепт"; "еда"; "обед"; "ужин"; "завтрак"],
     []));
   (u "работа",
    (us ["работ"; "проект"; "задач"; "встреч"; "созвон";
         "деплой"; "фича"; "баг"; "код ревью"; "митинг"],
     []));
   (u "творчество",
    (us ["рисов"; "писал"; "музык"; "игра на"; "сочин";
         "творч"; "художеств"; "стих"; "песн"; "картин"],
     [(u "музыка", us ["музык"; "гитар"; "пиани"; "играл на"]);
      (u "рисование", us ["рисов"; "нарисов"; "художеств"; "картин"])]));
   (u "саморазвитие",
    (us ["медитиров"; "размышл"; "психолог"; "личностн";
         "саморазв"; "цели"; "планиров"; "дневник"],
     []));
   (u "социальное",
    (us ["встреч"; "друзья"; "семья"; "общен"; "позвон";
         "гости"; "компан"; "тусовк"; "свидан"],
     []));
   (u "дом",
    (us ["убир"; "уборк"; "помыл"; "постир"; "почист";
         "порядок"; "быт"],
     []))].

Definition _achievement_keywords : list (str * Z) :=
  Eval vm_compute in
  [(u "впервые", 20); (u "первый раз", 20); (u "рекорд", 25);
   (u "побил рекорд", 25); (u "личный рекорд", 25); (u "достижени", 15);
   (u "смог", 10); (u "получилось", 10); (u "наконец", 8);
   (u "завершил", 12); (u "окончил", 15); (u "сдал экзамен", 20);
   (u "защитил", 20)].

(** [(\d+)\s*(час(?:а|ов)?|ч\.?|минут(?:а|ы|)?|мин\.?|секунд(?:а|ы|)?|сек\.?)]
    with [re.IGNORECASE]. *)
Definition _time_pattern : re :=
  cat [Grp 1 (plus d); star s_;
       Grp 2 (alt [cat [ilit "час"; opt (alt [ilit "а"; ilit "ов"])];
                   cat [ilit "ч"; opt (lit ".")];
                   cat [ilit "минут"; opt (alt [ilit "а"; ilit "ы"; eps])];
                   cat [ilit "мин"; opt (lit ".")];
                   cat [ilit "секунд"; opt (alt [ilit "а"; ilit "ы"; eps])];
                   cat [ilit "сек"; opt (lit ".")]])].

(** [[,;]|\s+и\s+|\s+а\s+|\s+также\s+|\s+потом\s+] with [re.IGNORECASE]. *)
Definition _segment_delimiters : re :=
  alt [any_of ",;";
       cat [plus s_; ilit "и"; plus s_];
       cat [plus s_; ilit "а"; plus s_];
       cat [plus s_; ilit "также"; plus s_];
       cat [plus s_; ilit "потом"; plus s_]].

Definition _segment_text (text : str) : list str :=
  (* Split on common delimiters: commas, semicolons, "and", "also" *)
  let segments := split _segment_delimiters text in
  (* Clean and filter *)
  map strip (filter (fun s => strip s <> []) segments).

Definition _detect_subcategory (text_lower : str) (subcategories : list (str * list str))
  : option str :=
  option_map fst
    (List.find (fun sc => existsb (fun subcat_kw => contains subcat_kw text_lower) (snd sc))
               subcategories).

Definition _detect_category (text : str) : option str * option str :=
  let text_lower := lower text in
  match List.find (fun e => existsb (fun keyword => contains keyword text_lower) (fst (snd e)))
                  _category_keywords with
  | Some (category, (_, subcategories)) =>
      (Some category, _detect_subcategory text_lower subcategories)
  | None => (None, None)
  end.

Definition _detect_achievement (text : str) : bool * option Z :=
  let text_lower := lower text in
  match List.find (fun kw => contains (fst kw) text_lower) _achievement_keywords with
  | Some (_, weight) => (true, Some weight)
  | None => (false, None)
  end.

(** [int(s)] of a run of decimal digits. *)
Definition int_of_digits (s : str) : Z :=
  fold_left (fun acc c => 10 * acc + Z.of_N (c - 48)) s 0.

Definition _extract_time (text : str) : option Z :=
  match search _time_pattern text with
  | None => None
  | Some (_, m) =>
      let value := int_of_digits (default [] (group 1 (m_caps m))) in
      let unit_ := lower (default [] (group 2 (m_caps m))) in
      (* Convert to minutes *)
      if contains (u "ч") unit_ || contains (u "hour") unit_ then Some (value * 60)
      else if contains (u "мин") unit_ || contains (u "min") unit_ then Some value
      else if contains (u "сек") unit_ || contains (u "sec") unit_
           then Some (Z.max 1 (value / 60))
      else None
  end.

Definition _calculate_action_confidence (category : option str)
    (time_minutes : option Z) (is_achievement : bool) : float :=
  let confidence := 0.5%float in  (* Base confidence *)
  let confidence :=
    match category with
    | Some (_ :: _) => (confidence + 0.2)%float
    | _ => confidence
    end in
  let confidence :=
    match time_minutes with
    | Some _ => (confidence + 0.2)%float
    | None => confidence
    end in
  let confidence := if is_achievement then (confidence + 0.1)%float else confidence in
  Py.min confidence 1.

(** [sum(a.confidence for a in actions) / len(actions)], or 0.0. *)
Definition _calculate_confidence (actions : list RawAction.t) : float :=
  match actions with
  | [] => 0%float
  | _ =>
      (fold_left (fun acc a => (acc + RawAction.confidence a)%float) actions 0%float
       / float_of_int (Z.of_nat (length actions)))%float
  end.

Definition _clean_action_text (text : str) : str :=
  (* Remove time expressions *)
  let text := sub _time_pattern (const "") text in
  (* Remove extra whitespace *)
  let text := sub (plus s_) (const " ") text in
  strip text.

Definition _extract_action_from_segment (segment : str) : option RawAction.t :=
  (* Detect category *)
  let '(category, subcategory) := _detect_category segment in
  match category with
  | None | Some [] => None
  | Some category_name =>
      (* Detect if achievement *)
      let '(is_achievement, achievement_weight) := _detect_achievement segment in
      let action_type := if is_achievement then ACHIEVEMENT else ACTIVITY in
      (* Extract time *)
      let time_minutes := _extract_time segment in
      (* Calculate confidence *)
      let confidence := _calculate_action_confidence category time_minutes is_achievement in
      (* Clean action text *)
      let action_text := _clean_action_text segment in
      Some (RawAction.mk category_name subcategory action_text action_type
              time_minutes confidence achievement_weight (u "heuristic"))
  end.

(** [parse]; [latency_ms] stands for the wall-clock time the call measures. *)
Definition parse (latency_ms : Z) (user_id : Z) (text : str) : RawParseResult :=
  (* Split into potential action segments *)
  let segments := _segment_text text in
  let actions := omap _extract_action_from_segment segments in
  (* Calculate overall confidence *)
  let confidence := _calculate_confidence actions in
  {| actions := actions; confidence := confidence;
     latency_ms := latency_ms; errors := [] |}.

End HeuristicParser.

(* ===================================================================== *)
(** ** services/cache_service.py *)
(* ===================================================================== *)

(** [str(n)] of an [int]. *)
Definition str_of_int (n : Z) : str :=
  u (DecimalString.NilZero.string_of_int (Z.to_int n)).

Module InMemoryCacheService.

(** [self.cache: dict[str, str]] *)
Definition t := gmap str str.

Definition empty : t := ∅.

Definition get (self : t) (key : str) : option str := self !! key.

(** The TTL is ignored in the memory implementation. *)
Definition set (self : t) (key value : str) (ttl : option Z) : t :=
  <[key := value]> self.

Definition delete (self : t) (key : str) : t := base.delete key self.

Section Digest.

(** [hashlib.sha256(data.encode()).hexdigest()] *)
Variable sha256_hexdigest : str -> str.

Definition generate_cache_key (user_id : Z) (text : str) : str :=
  let combined := str_of_int user_id ++ u ":" ++ text in
  let hash_key := sha256_hexdigest combined in
  u "nlp:analysis:" ++ hash_key.

Definition service : CacheService t :=
  Build_CacheService t get set delete generate_cache_key.

End Digest.

End InMemoryCacheService.

(* ===================================================================== *)
(** ** core/analyzer.py *)
(* ===================================================================== *)

Module TextAnalyzer.

(** What the analyzer calls outside the repository, and the parsers it is
    handed through the [Parser] and [LLMParser] protocols. *)
Record Collaborators := {
  (** [phonenumbers.PhoneNumberMatcher(text, "RU")] *)
  PhoneNumberMatcher : str -> exn (list (nat * nat));
  (** [rapidfuzz.fuzz.ratio] *)
  fuzz_ratio : str -> str -> float;
  (** [heuristic_parser.parse(user_id, text)] *)
  heuristic_parser : Z -> str -> RawParseResult;
  (** [await llm_parser.parse_with_llm(text)] *)
  llm_parser : str -> RawParseResult;
  (** [date.today()] *)
  today : date;
  (** [result.model_dump_json()] *)
  model_dump_json : AnalysisResult.t -> str;
  (** the [AnalysisResult] built from [json.loads(s)], or an exception *)
  model_load_json : str -> exn AnalysisResult.t
}.

Section Analyzer.
Context {H C : Type} {HS : HistoryLookupService H} {CS : CacheService C}.

Variable env : Collaborators.
Variable preprocessor : Preprocessor.TextPreprocessor.
Variable postprocessor : PostprocessorService.t.
Variable settings : Settings.

(** The state the analyzer works on: the history store, which the fusion
    service shares, and the cache service if there is one. *)
Definition state : Type := H * option C.

Definition _get_cached_result (cache_service : option C) (user_id : Z) (text : str)
    (analysis_date : date) : option AnalysisResult.t :=
  match cache_service with
  | None => None
  | Some cache =>
      let normalized_text := Preprocessor.normalize_text text in
      let cache_key := generate_cache_key user_id normalized_text in
      match cache_get cache cache_key with
      | Some ((_ :: _) as cached_json) =>
          match model_load_json env cached_json with
          | Ok result => Some result
          | Raised => None
          end
      | _ => None
      end
  end.

Definition _cache_result (cache_service : option C) (user_id : Z) (text : str)
    (result : AnalysisResult.t) : option C :=
  match cache_service with
  | None => None
  | Some cache =>
      let normalized_text := Preprocessor.normalize_text text in
      let cache_key := generate_cache_key user_id normalized_text in
      let result_json := model_dump_json env result in
      Some (cache_set cache cache_key result_json (Some (cache_ttl_seconds settings)))
  end.

(** Step 5: record actions in history. *)
Definition _record_actions (history_service : H) (user_id : Z)
    (final_actions : list Action.t) : H :=
  fold_left
    (fun history action =>
       if 0 <? Action.estimated_time_minutes action
       then record_action history user_id (Action.action action)
              (Action.estimated_time_minutes action)
       else history)
    final_actions history_service.

(** The pipeline after a cache miss. *)
Definition _analyze_uncached (st : state) (user_id : Z) (text : str)
    (analysis_date : date) : exn (AnalysisResult.t * state) :=
  let '(history_service, cache_service) := st in
  (* Preprocess text *)
  let processed_text :=
    Preprocessor.preprocess (PhoneNumberMatcher env) preprocessor text in
  (* Step 1: Run heuristic parser *)
  let heuristic_result := heuristic_parser env user_id processed_text in
  (* Step 2: Decide if LLM is needed *)
  let use_llm :=
    FusionService.should_use_llm settings (confidence heuristic_result)
      (Z.of_nat (length (actions heuristic_result))) in
  let llm_result :=
    if use_llm && use_llm_fallback settings
    then Some (llm_parser env processed_text) else None in
  let meta := {|
    used_heuristics := [u "keyword_match"; u "time_extraction"; u "category_detection"];
    used_llm := bool_decide (is_Some llm_result);
    llm_latency_ms := option_map latency_ms llm_result;
    heuristic_latency_ms := Some (latency_ms heuristic_result);
    meta_errors := from_option errors [] llm_result
  |} in
  (* Step 3: Fuse results *)
  fused_actions ←
    match llm_result with
    | Some llm_result =>
        FusionService.fuse_results history_service settings user_id
          (actions heuristic_result) (actions llm_result)
          (latency_ms heuristic_result) (latency_ms llm_result)
    | None =>
        FusionService.fuse_results history_service settings user_id
          (actions heuristic_result) []
          (latency_ms heuristic_result) 0
    end;
  (* Step 4: Postprocess (normalize, deduplicate) *)
  final_actions ← PostprocessorService.process (fuzz_ratio env) postprocessor fused_actions;
  (* Step 5: Record actions in history *)
  let history_service := _record_actions history_service user_id final_actions in
  (* Create result *)
  let result := AnalysisResult.mk user_id analysis_date None final_actions meta in
  (* Cache result *)
  let cache_service :=
    if cache_enabled settings
    then _cache_result cache_service user_id text result
    else cache_service in
  Ok (result, (history_service, cache_service)).

Definition analyze_text (st : state) (user_id : Z) (text : str)
    (analysis_date : option date) : exn (AnalysisResult.t * state) :=
  let analysis_date := default (today env) analysis_date in
  (* Check cache *)
  let cached :=
    if bool_decide (is_Some (snd st)) && cache_enabled settings
    then _get_cached_result (snd st) user_id text analysis_date
    else None in
  match cached with
  | Some cached => Ok (cached, st)
  | None => _analyze_uncached st user_id text analysis_date
  end.

End Analyzer.

End TextAnalyzer.

(* ===================================================================== *)
(** * Properties *)
(* ===================================================================== *)

(** ** Fusion: duration source and LLM fallback *)

Module FusionProperties.
Import FusionService.

Section Priority.
Context {H : Type} {HS : HistoryLookupService H}.
Variable history_service : H.
Variable settings : Settings.
Variable user_id : Z.

(** The validated constructor returns its argument or raises. *)
Lemma Action_new_Ok (a b : Action.t) : Action.new a = Ok b -> b = a.
Proof. unfold Action.new. destruct (Action.valid a); congruence. Qed.

(** An enriched action carries the time and the source that
    [_determine_time] selected. *)
Lemma enrich_uses_determined_time (raw_action : RawAction.t) (a : Action.t) :
  _enrich_action history_service settings user_id raw_action = Ok a ->
  _determine_time history_service settings user_id raw_action
  = Ok (Action.estimated_time_minutes a, Action.time_source a).
Proof.
  unfold _enrich_action.
  destruct (_determine_time history_service settings user_id raw_action)
    as [[t s]|]; simpl; [|discriminate].
  intros E. apply Action_new_Ok in E. subst a. reflexivity.
Qed.

End Priority.

(** C1. For every raw action, history store, settings and user, the pair
    (time, time_source) that Fusion selects is the first satisfied clause of
    the priority: TEXT with the action's own time when that time is present
    and the confidence is at least 0.7; otherwise HISTORY with the value of
    [get_average_time user_id (normalize_text action)] when it returns one;
    otherwise MODEL with the action's own time when present; otherwise
    DEFAULT with [settings.default_time_minutes].  (When the history lookup
    raises, so does the selection.)  The enriched action carries exactly
    that pair. *)
Theorem duration_source_priority :
  forall (H : Type) (S : HistoryLookupService H) (history_service : H)
         (settings : Settings) (user_id : Z) (raw_action : RawAction.t),
    let est := RawAction.estimated_time_minutes raw_action in
    let confident := ge (RawAction.confidence raw_action) 0.7 in
    let history :=
      get_average_time history_service user_id
        (Preprocessor.normalize_text (RawAction.action raw_action)) in
    let selected := _determine_time history_service settings user_id raw_action in
    (forall t, est = Some t -> confident = true -> selected = Ok (t, TEXT))
    /\ (forall h, (est = None \/ confident = false) -> history = Ok (Some h) ->
                  selected = Ok (h, HISTORY))
    /\ (forall t, confident = false -> history = Ok None -> est = Some t ->
                  selected = Ok (t, MODEL))
    /\ (est = None -> history = Ok None ->
        selected = Ok (default_time_minutes settings, DEFAULT))
    /\ ((est = None \/ confident = false) -> history = Raised -> selected = Raised)
    /\ (forall a, _enrich_action history_service settings user_id raw_action = Ok a ->
                  selected = Ok (Action.estimated_time_minutes a, Action.time_source a)).
Proof.
  intros H S history_service settings user_id raw_action est confident history selected.
  subst est confident history selected. unfold _determine_time.
  repeat split.
  - intros t -> ->. reflexivity.
  - intros h [-> | ->] ->; simpl; [reflexivity|].
    destruct (RawAction.estimated_time_minutes raw_action); reflexivity.
  - intros t -> -> ->. reflexivity.
  - intros -> ->. reflexivity.
  - intros [-> | ->] ->; simpl; [reflexivity|].
    destruct (RawAction.estimated_time_minutes raw_action); reflexivity.
  - intros a E. apply enrich_uses_determined_time in E. exact E.
Qed.

(** C4. [should_use_llm] is true exactly when the heuristic parser found no
    action or its confidence is below [settings.heuristic_confidence_threshold]
    (0.8 in the default settings). *)
Theorem should_use_llm_iff :
  forall (settings : Settings) (heuristic_confidence : float)
         (heuristic_action_count : Z),
    should_use_llm settings heuristic_confidence heuristic_action_count = true
    <-> (heuristic_action_count = 0
         \/ lt heuristic_confidence (heuristic_confidence_threshold settings) = true).
Proof.
  intros settings c n. unfold should_use_llm.
  destruct (Z.eqb_spec n 0) as [-> | Hn].
  - split; [left; reflexivity | reflexivity].
  - destruct (lt c (heuristic_confidence_threshold settings)).
    + split; [right; reflexivity | reflexivity].
    + split; [discriminate | intros [E | E]; [contradiction | discriminate]].
Qed.

(** The default threshold is 0.8. *)
Example default_threshold :
  heuristic_confidence_threshold default_settings = 0.8%float.
Proof. reflexivity. Qed.

End FusionProperties.

(** ** HistoryStore: global templates and the running mean *)

Module HistoryProperties.

(** A call [record_action(user_id, action_text, time_minutes)]. *)
Definition call : Type := Z * str * Z.

(** The key [(user_id, normalized_text)] a call writes to. *)
Definition key_of (c : call) : Z * str :=
  (fst (fst c), Preprocessor.normalize_text (snd (fst c))).

(** The durations a sequence of calls records under [key], in order. *)
Definition durations_for (key : Z * str) (calls : list call) : list Z :=
  map snd (List.filter (fun c => bool_decide (key_of c = key)) calls).

(** What one recording does to the pair (average, occurrences) of its key. *)
Definition update_row (row : option (float * Z)) (t : Z) : float * Z :=
  match row with
  | Some (avg, n) => (incremental_average avg n t, n + 1)
  | None => (float_of_int t, 1)
  end.

(** The pair after recording the durations [ds] one by one. *)
Definition running_row (row : option (float * Z)) (ds : list Z) : option (float * Z) :=
  fold_left (fun r t => Some (update_row r t)) ds row.





Definition record_all_sqlite (db : SQLiteHistoryService.t) (calls : list call)
  : SQLiteHistoryService.t :=
  fold_left (fun h c => SQLiteHistoryService.record_action h (fst (fst c)) (snd (fst c)) (snd c))
            calls db.

(** The pair (average, occurrences) the table holds for a key. *)
Definition sqlite_row (db : SQLiteHistoryService.t) (key : Z * str) : option (float * Z) :=
  option_map (fun r => (SQLiteHistoryService.avg_time_minutes r, SQLiteHistoryService.occurrences r))
             (List.find (SQLiteHistoryService.is_row_of (fst key) (snd key)) db).

(** *** The dictionary store *)

Lemma in_memory_record_lookup (data : InMemoryHistoryService.t) (user_id : Z) (text : str)
    (t : Z) (key : Z * str) :
  InMemoryHistoryService.record_action data user_id text t !! key
  = if bool_decide (key_of (user_id, text, t) = key)
    then Some (update_row (data !! key) t)
    else data !! key.
Proof.
  unfold InMemoryHistoryService.record_action, key_of; cbn [fst snd].
  unfold InMemoryHistoryService.t in *.
  generalize (Preprocessor.normalize_text text). intros norm.
  case_bool_decide as E.
  - subst key. destruct (data !! (user_id, norm)) as [[avg n]|] eqn:L;
      rewrite lookup_insert_eq; reflexivity.
  - destruct (data !! (user_id, norm)) as [[avg n]|] eqn:L;
      rewrite lookup_insert_ne by exact E; reflexivity.
Qed.


(** *** The SQLite table *)

Lemma find_map_preserved {A : Type} (p : A -> bool) (f : A -> A) (l : list A) :
  (forall x, p (f x) = p x) ->
  List.find p (map f l) = option_map f (List.find p l).
Proof.
  intros Hp. induction l as [|x l IH]; [reflexivity|]. simpl.
  rewrite Hp. destruct (p x); [reflexivity | exact IH].
Qed.

Lemma find_map_untouched {A : Type} (p : A -> bool) (f : A -> A) (l : list A) :
  (forall x, p (f x) = p x) -> (forall x, p x = true -> f x = x) ->
  List.find p (map f l) = List.find p l.
Proof.
  intros Hp Hf. induction l as [|x l IH]; [reflexivity|]. simpl.
  rewrite Hp. destruct (p x) eqn:E; [rewrite Hf by exact E; reflexivity | exact IH].
Qed.

Lemma find_app_new {A : Type} (p : A -> bool) (l : list A) (x : A) :
  List.find p (l ++ [x])
  = match List.find p l with
    | Some y => Some y
    | None => if p x then Some x else None
    end.
Proof.
  induction l as [|y l IH]; simpl; [reflexivity|].
  destruct (p y); [reflexivity | exact IH].
Qed.

Lemma is_row_of_key (uid : Z) (normalized : str) (key : Z * str) (r : SQLiteHistoryService.row) :
  (uid, normalized) <> key ->
  SQLiteHistoryService.is_row_of (fst key) (snd key) r = true ->
  SQLiteHistoryService.is_row_of uid normalized r = false.
Proof.
  unfold SQLiteHistoryService.is_row_of. intros Hk Hr.
  apply andb_true_iff in Hr as [Hu Ht].
  apply bool_decide_eq_true in Hu, Ht.
  apply andb_false_iff.
  destruct (decide (uid = fst key)) as [->|Hne].
  - right. apply bool_decide_eq_false. intros E. apply Hk.
    destruct key; simpl in *; congruence.
  - left. apply bool_decide_eq_false. congruence.
Qed.

Lemma sqlite_record_lookup (db : SQLiteHistoryService.t) (user_id : Z) (text : str)
    (t : Z) (key : Z * str) :
  sqlite_row (SQLiteHistoryService.record_action db user_id text t) key
  = if bool_decide (key_of (user_id, text, t) = key)
    then Some (update_row (sqlite_row db key) t)
    else sqlite_row db key.
Proof.
  unfold SQLiteHistoryService.record_action, sqlite_row, key_of; cbn [fst snd].
  generalize (Preprocessor.normalize_text text). intros norm.
  case_bool_decide as E.
  - subst key; cbn [fst snd].
    destruct (List.find (SQLiteHistoryService.is_row_of user_id norm) db) as [r|] eqn:F.
    + rewrite find_map_preserved.
      * rewrite F. simpl. apply find_some in F as [_ F]. rewrite F. reflexivity.
      * intros x. destruct (SQLiteHistoryService.is_row_of user_id norm x) eqn:Ex;
          [exact Ex | exact Ex].
    + rewrite find_app_new, F. unfold SQLiteHistoryService.is_row_of at 1; cbn.
      rewrite !bool_decide_eq_true_2 by reflexivity. reflexivity.
  - destruct (List.find (SQLiteHistoryService.is_row_of user_id norm) db) as [r|] eqn:F.
    + rewrite find_map_untouched; [reflexivity | |].
      * intros x. destruct (SQLiteHistoryService.is_row_of user_id norm x); reflexivity.
      * intros x Hx. rewrite (is_row_of_key user_id norm key x E Hx). reflexivity.
    + rewrite find_app_new.
      destruct (List.find (SQLiteHistoryService.is_row_of (fst key) (snd key)) db);
        [reflexivity|].
      unfold SQLiteHistoryService.is_row_of; cbn.
      destruct (decide (Some user_id = Some (fst key))) as [Eu|Eu].
      * rewrite (bool_decide_eq_false_2 (norm = snd key)).
        -- rewrite andb_false_r. reflexivity.
        -- intros En. apply E. destruct key; simpl in *; congruence.
      * rewrite (bool_decide_eq_false_2 _ Eu). reflexivity.
Qed.

Lemma sqlite_running_row (calls : list call) :
  forall (db : SQLiteHistoryService.t) (key : Z * str),
    sqlite_row (record_all_sqlite db calls) key
    = running_row (sqlite_row db key) (durations_for key calls).
Proof.
  induction calls as [|[[uid text] t] calls IH]; intros db key; [reflexivity|].
  unfold record_all_sqlite, durations_for in *. cbn [fold_left List.filter].
  rewrite IH, sqlite_record_lookup. cbn [fst snd].
  case_bool_decide; reflexivity.
Qed.

(** *** Occurrences and the exact recurrence *)

Lemma running_row_some (ds : list Z) :
  forall (avg : float) (n : Z),
    exists avg', running_row (Some (avg, n)) ds = Some (avg', n + Z.of_nat (length ds)).
Proof.
  induction ds as [|t ds IH]; intros avg n.
  - exists avg. simpl. rewrite Z.add_0_r. reflexivity.
  - destruct (IH (incremental_average avg n t) (n + 1)) as [avg' E].
    exists avg'. unfold running_row in *. cbn [fold_left update_row length].
    rewrite E. f_equal. f_equal. lia.
Qed.






(** *** The SQLite table never holds a NULL user *)

Definition no_null_user (db : SQLiteHistoryService.t) : Prop :=
  Forall (fun r => SQLiteHistoryService.user_id r <> None) db.

Lemma record_action_no_null_user (db : SQLiteHistoryService.t) (uid : Z) (text : str) (t : Z) :
  no_null_user db -> no_null_user (SQLiteHistoryService.record_action db uid text t).
Proof.
  unfold no_null_user, SQLiteHistoryService.record_action. intros Hdb.
  destruct (List.find _ db).
  - apply Forall_map. eapply Forall_impl; [exact Hdb|].
    intros r' Hr. simpl. destruct (SQLiteHistoryService.is_row_of _ _ r'); exact Hr.
  - apply Forall_app. split; [exact Hdb|]. constructor; [discriminate | constructor].
Qed.

Lemma record_all_no_null_user (calls : list call) :
  forall db, no_null_user db -> no_null_user (record_all_sqlite db calls).
Proof.
  induction calls as [|c calls IH]; intros db Hdb; [exact Hdb|].
  apply IH, record_action_no_null_user, Hdb.
Qed.

Lemma find_null_row_none (db : SQLiteHistoryService.t) (normalized : str) :
  no_null_user db ->
  List.find (SQLiteHistoryService.is_null_row_of normalized) db = None.
Proof.
  intros Hdb. induction Hdb as [|r db Hr _ IH]; [reflexivity|].
  simpl. unfold SQLiteHistoryService.is_null_row_of at 1.
  rewrite (bool_decide_eq_false_2 _ Hr). exact IH.
Qed.

(** Whatever was recorded, for user 0 or any other, a user without a row of
    their own gets no value from the SQLite store. *)
Lemma sqlite_lookup_without_own_row (calls : list call) (uid : Z) (text : str) :
  let db := record_all_sqlite SQLiteHistoryService.empty calls in
  sqlite_row db (uid, Preprocessor.normalize_text text) = None ->
  SQLiteHistoryService.get_average_time db uid text = Ok None.
Proof.
  intros db Hrow. unfold SQLiteHistoryService.get_average_time.
  unfold SQLiteHistoryService.select_average.
  generalize dependent (Preprocessor.normalize_text text). intros norm Hrow.
  unfold sqlite_row in Hrow; cbn [fst snd] in Hrow.
  destruct (List.find (SQLiteHistoryService.is_row_of uid norm) db); [discriminate|].
  rewrite find_null_row_none; [reflexivity|].
  apply record_all_no_null_user. constructor.
Qed.

(** *** Global templates *)

(** The dictionary store serves the row of user 0 to a user without a row
    of their own: after [record_action(0, k, v)] such a user gets [int(avg)]
    of the global row's stored average. *)
Theorem in_memory_global_fallback :
  forall (data : InMemoryHistoryService.t) (k : str) (v : Z) (uid : Z),
    let data' := InMemoryHistoryService.record_action data 0 k v in
    data' !! (uid, Preprocessor.normalize_text k) = None ->
    exists avg n,
      data' !! (0, Preprocessor.normalize_text k) = Some (avg, n)
      /\ InMemoryHistoryService.get_average_time data' uid k = average_as_int avg.
Proof.
  intros data k v uid data' Hnone.
  assert (Hg : data' !! (0, Preprocessor.normalize_text k)
               = Some (update_row (data !! (0, Preprocessor.normalize_text k)) v)).
  { subst data'. rewrite in_memory_record_lookup. unfold key_of; cbn [fst snd].
    rewrite bool_decide_eq_true_2 by reflexivity. reflexivity. }
  destruct (update_row _ v) as [avg n] eqn:Eu.
  exists avg, n. split; [exact Hg|].
  unfold InMemoryHistoryService.get_average_time.
  unfold InMemoryHistoryService.t in *. rewrite Hnone, Hg. reflexivity.
Qed.

Lemma in_memory_global_fallback_witness :
  exists avg n,
    InMemoryHistoryService.record_action InMemoryHistoryService.empty 0 (u "действие") 30
      !! (0, Preprocessor.normalize_text (u "действие")) = Some (avg, n)
    /\ InMemoryHistoryService.get_average_time
         (InMemoryHistoryService.record_action InMemoryHistoryService.empty 0 (u "действие") 30)
         2 (u "действие") = average_as_int avg.
Proof.
  apply (in_memory_global_fallback InMemoryHistoryService.empty (u "действие") 30 2).
  vm_compute. reflexivity.
Defined.

(** C3, on the SQLite store that the service is wired with: after
    [record_action(0, k, 30)] on an empty table a user with no row of their
    own gets nothing, while the dictionary store returns 30. *)
Theorem sqlite_misses_global_template :
  let k := u "базовое действие" in
  SQLiteHistoryService.get_average_time
    (SQLiteHistoryService.record_action SQLiteHistoryService.empty 0 k 30) 999 k
  = Ok None
  /\ InMemoryHistoryService.get_average_time
       (InMemoryHistoryService.record_action InMemoryHistoryService.empty 0 k 30) 999 k
     = Ok (Some 30).
Proof. vm_compute. split; reflexivity. Qed.

(** *** The running mean *)



End HistoryProperties.

(** ** HeuristicParser: the confidence of emitted actions *)

Module HeuristicProperties.
Import HeuristicParser.

(** The four sums [0.5 + 0.2], [0.5 + 0.2 + 0.1], [0.5 + 0.2 + 0.2] and
    [0.5 + 0.2 + 0.2 + 0.1] as binary64 arithmetic rounds them. *)
Definition conf_category : float := 0.7.
Definition conf_category_achievement : float := 0.7999999999999999.
Definition conf_category_time : float := 0.8999999999999999.
Definition conf_category_time_achievement : float := 0.9999999999999999.

Lemma confidence_sums :
  (0.5 + 0.2 = conf_category)%float
  /\ (0.5 + 0.2 + 0.1 = conf_category_achievement)%float
  /\ (0.5 + 0.2 + 0.2 = conf_category_time)%float
  /\ (0.5 + 0.2 + 0.2 + 0.1 = conf_category_time_achievement)%float.
Proof. repeat split; reflexivity. Qed.

(** A segment that yields an action has a category, so its confidence is
    one of the four sums, chosen by the extracted time and the achievement
    flag. *)
Lemma extracted_action_confidence (segment : str) (a : RawAction.t) :
  _extract_action_from_segment segment = Some a ->
  RawAction.source a = u "heuristic"
  /\ RawAction.estimated_time_minutes a = _extract_time segment
  /\ RawAction.confidence a
     = match _extract_time segment, fst (_detect_achievement segment) with
       | None, false => conf_category
       | None, true => conf_category_achievement
       | Some _, false => conf_category_time
       | Some _, true => conf_category_time_achievement
       end.
Proof.
  unfold _extract_action_from_segment.
  destruct (_detect_category segment) as [[[|c cs]|] subcategory]; try discriminate.
  destruct (_detect_achievement segment) as [is_achievement weight].
  intros [= <-]. cbn [RawAction.source RawAction.estimated_time_minutes
                      RawAction.confidence fst].
  repeat split.
  destruct (_extract_time segment), is_achievement; reflexivity.
Qed.

Lemma parse_actions_from_segments (latency user_id : Z) (text : str) (a : RawAction.t) :
  In a (actions (parse latency user_id text)) ->
  exists segment, _extract_action_from_segment segment = Some a.
Proof.
  unfold parse; cbn [actions]. intros Hin.
  apply list_elem_of_In, list_elem_of_omap in Hin as [segment [_ E]].
  exists segment. exact E.
Qed.

(** C10, as binary64 arithmetic has it.  Every action that [parse] emits has
    a confidence among 0.7, 0.7999999999999999, 0.8999999999999999 and
    0.9999999999999999; it is at least 0.7; an action with an extracted
    duration has confidence 0.8999999999999999 or 0.9999999999999999, which
    is at least the default LLM threshold 0.8 and the text threshold 0.7;
    and a parse that emits exactly one action has that action's confidence
    as its result confidence, which is then at least 0.7. *)
Theorem heuristic_confidence_values :
  forall (latency user_id : Z) (text : str),
    let result := parse latency user_id text in
    Forall (fun a =>
      let c := RawAction.confidence a in
      (c = conf_category \/ c = conf_category_achievement
       \/ c = conf_category_time \/ c = conf_category_time_achievement)
      /\ ge c 0.7 = true
      /\ (RawAction.estimated_time_minutes a <> None ->
          (c = conf_category_time \/ c = conf_category_time_achievement)
          /\ ge c 0.8 = true)) (actions result)
    /\ (forall a, actions result = [a] ->
          confidence result = RawAction.confidence a
          /\ ge (confidence result) 0.7 = true).
Proof.
  intros latency user_id text result.
  assert (Hall : forall a, In a (actions result) ->
            let c := RawAction.confidence a in
            (c = conf_category \/ c = conf_category_achievement
             \/ c = conf_category_time \/ c = conf_category_time_achievement)
            /\ ge c 0.7 = true
            /\ (RawAction.estimated_time_minutes a <> None ->
                (c = conf_category_time \/ c = conf_category_time_achievement)
                /\ ge c 0.8 = true)).
  { intros a Hin.
    apply parse_actions_from_segments in Hin as [segment E].
    apply extracted_action_confidence in E as (_ & Et & Ec).
    cbv zeta. rewrite Ec, Et.
    destruct (_extract_time segment), (fst (_detect_achievement segment));
      (split; [tauto | split; [reflexivity|]]);
      intros Hn; try (exfalso; apply Hn; reflexivity);
      (split; [tauto | reflexivity]). }
  split.
  - apply List.Forall_forall. exact Hall.
  - intros a Ea.
    assert (Ec : confidence result = RawAction.confidence a).
    { subst result. unfold parse in *. cbn [actions confidence] in *.
      rewrite Ea. unfold _calculate_confidence. cbn [fold_left length].
      destruct (Hall a) as [Hc _].
      { cbn [actions]. rewrite Ea. left. reflexivity. }
      cbv zeta in Hc.
      destruct Hc as [-> | [-> | [-> | ->]]]; reflexivity. }
    split; [exact Ec|]. rewrite Ec.
    destruct (Hall a) as (_ & Hge & _); [rewrite Ea; left; reflexivity | exact Hge].
Qed.

(** "Впервые сходил в зал" yields one action, an achievement of the
    category "спорт" without a duration: its confidence 0.5 + 0.2 + 0.1 is
    0.7999999999999999, none of 0.7, 0.8, 0.9 and 1.0, and below the LLM
    threshold 0.8.  "Читал 2 часа" yields one action with the duration 120:
    its confidence 0.5 + 0.2 + 0.2 is 0.8999999999999999, below 0.9.
    "Сходил в зал, бегал, плавал" yields three actions of confidence 0.7
    each, and the result confidence (0.7 + 0.7 + 0.7) / 3 is
    0.6999999999999998, below 0.7. *)
Lemma heuristic_confidence_rounds :
  (exists a, actions (parse 0 1 (u "Впервые сходил в зал")) = [a]
     /\ RawAction.type a = ACHIEVEMENT
     /\ RawAction.estimated_time_minutes a = None
     /\ RawAction.confidence a = 0.7999999999999999%float
     /\ PrimFloat.eqb (RawAction.confidence a) 0.7 = false
     /\ PrimFloat.eqb (RawAction.confidence a) 0.8 = false
     /\ PrimFloat.eqb (RawAction.confidence a) 0.9 = false
     /\ PrimFloat.eqb (RawAction.confidence a) 1.0 = false
     /\ lt (RawAction.confidence a) 0.8 = true)
  /\ (exists a, actions (parse 0 1 (u "Читал 2 часа")) = [a]
        /\ RawAction.estimated_time_minutes a = Some 120
        /\ RawAction.confidence a = 0.8999999999999999%float
        /\ ge (RawAction.confidence a) 0.9 = false)
  /\ (length (actions (parse 0 1 (u "Сходил в зал, бегал, плавал"))) = 3%nat
      /\ confidence (parse 0 1 (u "Сходил в зал, бегал, плавал"))
         = 0.6999999999999998%float
      /\ ge (confidence (parse 0 1 (u "Сходил в зал, бегал, плавал"))) 0.7 = false).
Proof.
  split; [|split].
  - eexists. split; [vm_compute; reflexivity|]. repeat split; vm_compute; reflexivity.
  - eexists. split; [vm_compute; reflexivity|]. repeat split; vm_compute; reflexivity.
  - repeat split; vm_compute; reflexivity.
Qed.

End HeuristicProperties.

(** ** Postprocessor: validation, points and repeated runs *)

Module PostprocessorProperties.
Import PostprocessorService.

(** The points the validation pass recomputes. *)
Definition correct_points (action : Action.t) : float :=
  match Action.type action with
  | ACHIEVEMENT => float_of_int (int_or (Action.achievement_weight action) 10)
  | ACTIVITY => (float_of_int (Action.estimated_time_minutes action) / 10)%float
  end.


Section Similarity.
Variable fuzz_ratio : str -> str -> float.
Variable self : t.



End Similarity.

(** *** Floating-point facts the validation pass rests on *)




(** *** The validation pass *)





(** *** The other passes on their fixed points *)



Section Similarity.
Variable fuzz_ratio : str -> str -> float.
Variable self : t.





End Similarity.






(** The synonym pass alone is not idempotent either: "залее" becomes "зале",
    which the next run turns into "зал". *)
Lemma apply_synonyms_twice :
  _apply_synonyms (u "залее") = u "зале" /\ _apply_synonyms (u "зале") = u "зал".
Proof. split; vm_compute; reflexivity. Qed.

(** *** Points of the actions that leave the postprocessor *)



End PostprocessorProperties.

(** ** Regular expressions: the patterns of the cleaning passes *)

Module ReProperties.
Import Re Preprocessor.
Local Open Scope nat_scope.

(** The length of the longest prefix of [s] whose characters satisfy [p]. *)
Fixpoint run_length (p : char -> bool) (s : str) : nat :=
  match s with
  | c :: r => if p c then S (run_length p r) else O
  | [] => O
  end.

(** The state after reading that prefix. *)
Fixpoint eat (p : char -> bool) (prev : option char) (s : str) : option char * str :=
  match s with
  | c :: r => if p c then eat p (Some c) r else (prev, s)
  | [] => (prev, [])
  end.

Lemma eat_length p s : forall prev, length (snd (eat p prev s)) = length s - run_length p s.
Proof.
  induction s as [|c r IH]; intros prev; [reflexivity|]. simpl.
  destruct (p c); simpl; [apply IH | reflexivity].
Qed.

Lemma eat_rest p s : forall prev, snd (eat p prev s) = drop (run_length p s) s.
Proof.
  induction s as [|c r IH]; intros prev; [reflexivity|]. simpl.
  destruct (p c); simpl; [apply IH | reflexivity].
Qed.

Lemma rep_loop_class (p : char -> bool) (lo : nat) (fuel : nat) :
  forall (i : nat) (prev : option char) (s : str) (caps : list (nat * str)),
    length s <= fuel ->
    rep_loop (run (Chr p)) lo None Some fuel i (MState prev s caps)
    = if lo <=? i + run_length p s
      then Some (MState (fst (eat p prev s)) (snd (eat p prev s)) caps)
      else None.
Proof.
  induction fuel as [|fuel IH]; intros i prev s caps Hlen.
  - destruct s; [|simpl in Hlen; lia]. simpl. rewrite Nat.add_0_r. reflexivity.
  - cbn [rep_loop under run m_rest m_caps].
    destruct s as [|c r].
    + simpl. rewrite Nat.add_0_r. reflexivity.
    + cbn [run_length eat]. destruct (p c) eqn:Ep.
      * cbn [m_rest length]. rewrite (proj2 (Nat.ltb_lt _ _)) by lia.
        rewrite IH by (simpl in Hlen; lia).
        replace (S i + run_length p r) with (i + S (run_length p r)) by lia.
        destruct (lo <=? i + S (run_length p r)) eqn:El; [reflexivity|].
        apply Nat.leb_gt in El. rewrite (proj2 (Nat.leb_gt _ _)) by lia. reflexivity.
      * rewrite Nat.add_0_r. reflexivity.
Qed.

Lemma run_rep {A} (a : re) lo hi (st : mstate) (k : mstate -> option A) :
  run (Rep a lo hi) st k = rep_loop (run a) lo hi k (length (m_rest st)) O st.
Proof. reflexivity. Qed.

Lemma match_at_plus (p : char -> bool) (prev : option char) (s : str) :
  match_at (plus (Chr p)) prev s
  = if 1 <=? run_length p s
    then Some (MState (fst (eat p prev s)) (snd (eat p prev s)) [])
    else None.
Proof.
  unfold match_at, plus. rewrite run_rep. cbn [m_rest].
  rewrite rep_loop_class by lia. cbn [Nat.add].
  destruct (1 <=? run_length p s) eqn:E; [|reflexivity].
  cbn [m_rest]. rewrite eat_length. apply Nat.leb_le in E.
  destruct s as [|c r]; [simpl in E; lia|].
  rewrite (proj2 (Nat.ltb_lt _ _)); [reflexivity|]. simpl length. lia.
Qed.

Lemma match_at_class (p : char -> bool) (prev : option char) (s : str) :
  match_at (Chr p) prev s
  = match s with
    | c :: r => if p c then Some (MState (Some c) r []) else None
    | [] => None
    end.
Proof.
  unfold match_at. cbn [run m_rest m_caps]. destruct s as [|c r]; [reflexivity|].
  destruct (p c); [|reflexivity]. cbn [m_rest length].
  rewrite (proj2 (Nat.ltb_lt _ _)) by lia. reflexivity.
Qed.

(** [sub] of a one-character class by the empty string removes the class. *)
Lemma sub_class_empty (p : char -> bool) (repl : list (nat * str) -> str) (s : str) :
  repl [] = [] ->
  sub (Chr p) repl s = List.filter (fun c => negb (p c)) s.
Proof.
  intros Hr. unfold sub. generalize (@None char).
  assert (G : forall fuel s prev, length s < fuel ->
            sub_fuel fuel (Chr p) repl prev s = List.filter (fun c => negb (p c)) s).
  { clear s. induction fuel as [|fuel IH]; intros s prev Hlen; [lia|].
    cbn [sub_fuel]. rewrite match_at_class. destruct s as [|c r]; [reflexivity|].
    cbn [List.filter]. simpl in Hlen. destruct (p c); cbn [negb m_caps m_prev m_rest].
    - rewrite Hr. apply IH. lia.
    - f_equal. apply IH. lia. }
  intros prev. apply G. lia.
Qed.

(** Runs of the class [p] replaced by one [x]: [in_run] tells whether the
    previous character belonged to a run. *)
Fixpoint squeeze (p : char -> bool) (x : char) (in_run : bool) (s : str) : str :=
  match s with
  | [] => []
  | c :: r =>
      if p c then (if in_run then squeeze p x true r else x :: squeeze p x true r)
      else c :: squeeze p x false r
  end.

Lemma squeeze_in_run p x s :
  squeeze p x true s = squeeze p x false (drop (run_length p s) s).
Proof.
  induction s as [|c r IH]; [reflexivity|]. simpl.
  destruct (p c) eqn:E; simpl; [exact IH | rewrite E; reflexivity].
Qed.

Lemma sub_plus_squeeze (p : char -> bool) (x : char) (repl : list (nat * str) -> str)
    (s : str) :
  repl [] = [x] ->
  sub (plus (Chr p)) repl s = squeeze p x false s.
Proof.
  intros Hr. unfold sub. generalize (@None char).
  assert (G : forall fuel s prev, length s < fuel ->
            sub_fuel fuel (plus (Chr p)) repl prev s = squeeze p x false s).
  { clear s. induction fuel as [|fuel IH]; intros s prev Hlen; [lia|].
    cbn [sub_fuel]. rewrite match_at_plus. destruct s as [|c r]; [reflexivity|].
    cbn [run_length squeeze]. simpl in Hlen. destruct (p c) eqn:Ep.
    - cbn [Nat.leb m_caps m_prev m_rest]. rewrite Hr. cbn [app]. f_equal.
      cbn [eat]. rewrite Ep. rewrite eat_rest, squeeze_in_run.
      apply IH. rewrite length_drop. lia.
    - cbn [Nat.leb]. f_equal. apply IH. lia. }
  intros prev. apply G. lia.
Qed.

Section Squeezed.
Variable p : char -> bool.
Variable x : char.
Hypothesis Hx : p x = true.

(** No run of the class is longer than one character, and that character
    is [x]. *)
Fixpoint squeezed (in_run : bool) (s : str) : Prop :=
  match s with
  | [] => True
  | c :: r =>
      if p c then c = x /\ in_run = false /\ squeezed true r
      else squeezed false r
  end.

Lemma squeeze_squeezed (s : str) : forall b, squeezed b (squeeze p x b s).
Proof.
  induction s as [|c r IH]; intros b; [exact I|]. cbn [squeeze].
  destruct (p c) eqn:Ec.
  - destruct b; [apply IH|]. cbn [squeezed]. rewrite Hx. auto.
  - cbn [squeezed]. rewrite Ec. apply IH.
Qed.

Lemma squeezed_fixed (s : str) : forall b, squeezed b s -> squeeze p x b s = s.
Proof.
  induction s as [|c r IH]; intros b Hs; [reflexivity|]. cbn [squeeze squeezed] in *.
  destruct (p c).
  - destruct Hs as (-> & -> & Hr). rewrite IH by exact Hr. reflexivity.
  - rewrite IH by exact Hs. reflexivity.
Qed.

Lemma squeezed_weaken (s : str) (b : bool) : squeezed b s -> squeezed false s.
Proof.
  destruct s as [|c r]; [auto|]. cbn [squeezed]. destruct (p c); [|auto].
  intros (-> & _ & Hr). auto.
Qed.

End Squeezed.

Lemma squeezed_lstrip (x : char) (s : str) :
  forall b, squeezed isspace x b s -> squeezed isspace x false (lstrip s).
Proof.
  induction s as [|c r IH]; intros b Hs; [exact I|]. cbn [lstrip squeezed] in *.
  destruct (isspace c) eqn:Ec.
  - destruct Hs as (_ & _ & Hr). eapply IH. exact Hr.
  - cbn [squeezed]. rewrite Ec. exact Hs.
Qed.

Lemma squeezed_rstrip (x : char) (s : str) :
  forall b, squeezed isspace x b s -> squeezed isspace x b (rstrip s).
Proof.
  induction s as [|c r IH]; intros b Hs; [exact I|]. cbn [rstrip squeezed] in *.
  destruct (isspace c) eqn:Ec.
  - destruct Hs as (-> & -> & Hr). apply IH in Hr.
    destruct (rstrip r) as [|c' r']; [exact I|].
    cbn [squeezed] in *. rewrite Ec. auto.
  - apply IH in Hs. destruct (rstrip r) as [|c' r'].
    + cbn [squeezed]. rewrite Ec. exact I.
    + cbn [squeezed] in *. rewrite Ec. exact Hs.
Qed.

Lemma Forall_lstrip (P : char -> Prop) (s : str) : Forall P s -> Forall P (lstrip s).
Proof.
  induction 1 as [|c r Hc Hr IH]; [constructor|]. cbn [lstrip].
  destruct (isspace c); [exact IH | constructor; assumption].
Qed.

Lemma Forall_rstrip (P : char -> Prop) (s : str) : Forall P s -> Forall P (rstrip s).
Proof.
  induction 1 as [|c r Hc Hr IH]; [constructor|]. cbn [rstrip].
  destruct (rstrip r) as [|c' r'].
  - destruct (isspace c); repeat constructor; assumption.
  - constructor; assumption.
Qed.

Lemma Forall_squeeze (P : char -> Prop) (p : char -> bool) (x : char) (s : str) :
  P x -> Forall P s -> forall b, Forall P (squeeze p x b s).
Proof.
  intros Hx. induction 1 as [|c r Hc Hr IH]; intros b; [constructor|]. cbn [squeeze].
  destruct (p c); [destruct b|]; auto.
Qed.

(** *** [strip] *)

Definition no_leading_space (s : str) : Prop :=
  match s with
  | c :: _ => isspace c = false
  | [] => True
  end.

Lemma lstrip_no_leading_space (s : str) : no_leading_space (lstrip s).
Proof.
  induction s as [|c r IH]; [exact I|]. cbn [lstrip].
  destruct (isspace c) eqn:Ec; [exact IH | exact Ec].
Qed.

Lemma lstrip_fixed (s : str) : no_leading_space s -> lstrip s = s.
Proof. destruct s as [|c r]; [reflexivity|]. simpl. intros ->. reflexivity. Qed.

Lemma rstrip_no_leading_space (s : str) :
  no_leading_space s -> no_leading_space (rstrip s).
Proof.
  destruct s as [|c r]; [auto|]. cbn [rstrip no_leading_space]. intros Hc.
  destruct (rstrip r); [rewrite Hc|]; exact Hc.
Qed.

Lemma rstrip_idempotent (s : str) : rstrip (rstrip s) = rstrip s.
Proof.
  induction s as [|c r IH]; [reflexivity|]. cbn [rstrip].
  destruct (rstrip r) as [|c' r'] eqn:Er.
  - destruct (isspace c) eqn:Ec; [reflexivity|]. cbn [rstrip]. rewrite Ec. reflexivity.
  - change (rstrip (c :: c' :: r')) with
      (match rstrip (c' :: r') with [] => if isspace c then [] else [c] | r0 => c :: r0 end).
    rewrite IH. reflexivity.
Qed.

Lemma strip_idempotent (s : str) : strip (strip s) = strip s.
Proof.
  unfold strip.
  rewrite (lstrip_fixed (rstrip (lstrip s))).
  - apply rstrip_idempotent.
  - apply rstrip_no_leading_space, lstrip_no_leading_space.
Qed.


Section Runs.
Variable p : char -> bool.
Variable n : nat.

(** The groups captured while reading the run at the head of [s], one per
    character, the last one first. *)
Fixpoint eat_caps (s : str) (caps : list (nat * str)) : list (nat * str) :=
  match s with
  | c :: r => if p c then eat_caps r ((n, [c]) :: caps) else caps
  | [] => caps
  end.

(** The last character of the run at the head of [s], or [d]. *)
Fixpoint run_last (d : char) (s : str) : char :=
  match s with
  | c :: r => if p c then run_last c r else d
  | [] => d
  end.

Lemma group_eat_caps (s : str) :
  forall d caps, group n (eat_caps s ((n, [d]) :: caps)) = Some [run_last d s].
Proof.
  induction s as [|c r IH]; intros d caps.
  - simpl. rewrite Nat.eqb_refl. reflexivity.
  - cbn [eat_caps run_last]. destruct (p c); [apply IH|].
    simpl. rewrite Nat.eqb_refl. reflexivity.
Qed.

Lemma rep_loop_group (lo : nat) (fuel : nat) :
  forall (i : nat) (prev : option char) (s : str) (caps : list (nat * str)),
    length s <= fuel ->
    rep_loop (run (Grp n (Chr p))) lo None Some fuel i (MState prev s caps)
    = if lo <=? i + run_length p s
      then Some (MState (fst (eat p prev s)) (snd (eat p prev s)) (eat_caps s caps))
      else None.
Proof.
  induction fuel as [|fuel IH]; intros i prev s caps Hlen.
  - destruct s; [|simpl in Hlen; lia]. simpl. rewrite Nat.add_0_r. reflexivity.
  - cbn [rep_loop under run m_rest m_caps m_prev].
    destruct s as [|c r].
    + simpl. rewrite Nat.add_0_r. reflexivity.
    + cbn [run_length eat eat_caps]. destruct (p c) eqn:Ep.
      * cbn [m_rest m_prev m_caps length].
        rewrite (proj2 (Nat.ltb_lt _ _)) by lia.
        replace (S (length r) - length r) with 1 by lia. cbn [take].
        rewrite IH by (simpl in Hlen; lia).
        replace (S i + run_length p r) with (i + S (run_length p r)) by lia.
        destruct (lo <=? i + S (run_length p r)) eqn:El; [reflexivity|].
        apply Nat.leb_gt in El. rewrite (proj2 (Nat.leb_gt _ _)) by lia. reflexivity.
      * rewrite Nat.add_0_r. reflexivity.
Qed.

Lemma match_at_runs (lo : nat) (prev : option char) (s : str) :
  1 <= lo ->
  match_at (at_least lo (Grp n (Chr p))) prev s
  = if lo <=? run_length p s
    then Some (MState (fst (eat p prev s)) (snd (eat p prev s)) (eat_caps s []))
    else None.
Proof.
  intros Hlo. unfold match_at, at_least. rewrite run_rep. cbn [m_rest].
  rewrite rep_loop_group by lia. cbn [Nat.add].
  destruct (lo <=? run_length p s) eqn:E; [|reflexivity].
  cbn [m_rest]. rewrite eat_length. apply Nat.leb_le in E.
  destruct s as [|c r]; [simpl in E; lia|].
  rewrite (proj2 (Nat.ltb_lt _ _)); [reflexivity|]. simpl length. lia.
Qed.

End Runs.

Section Limit.
Variable p : char -> bool.
Hypothesis p_not_space : forall c, p c = true -> isspace c = false.

Definition limit_pattern : re := at_least 4 (Grp 1 (Chr p)).

(** Every run of the class has at most three characters. *)
Fixpoint short_runs (s : str) : Prop :=
  match s with
  | [] => True
  | _ :: r => run_length p s <= 3 /\ short_runs r
  end.

Lemma run_last_class (s : str) : forall d, p d = true -> p (run_last p d s) = true.
Proof.
  induction s as [|c r IH]; intros d Hd; [exact Hd|]. cbn [run_last].
  destruct (p c) eqn:Ec; [apply IH, Ec | exact Hd].
Qed.

Lemma run_length_after_run (s : str) : run_length p (drop (run_length p s) s) = 0.
Proof.
  induction s as [|c r IH]; [reflexivity|]. cbn [run_length].
  destruct (p c) eqn:Ec; [exact IH|]. simpl. rewrite Ec. reflexivity.
Qed.

Lemma sub_limit_step (fuel : nat) (prev : option char) (c : char) (r : str) :
  sub_fuel (S fuel) limit_pattern _group1_thrice prev (c :: r)
  = if 4 <=? run_length p (c :: r)
    then let l := run_last p c r in
         l :: l :: l :: sub_fuel fuel limit_pattern _group1_thrice
                          (fst (eat p prev (c :: r)))
                          (drop (run_length p (c :: r)) (c :: r))
    else c :: sub_fuel fuel limit_pattern _group1_thrice (Some c) r.
Proof.
  cbn [sub_fuel]. unfold limit_pattern. rewrite match_at_runs by lia.
  destruct (4 <=? run_length p (c :: r)) eqn:E; [|reflexivity].
  cbn [m_caps m_prev m_rest]. rewrite eat_rest.
  cbn [run_length] in E. destruct (p c) eqn:Ec; [|discriminate].
  unfold _group1_thrice. cbn [eat_caps]. rewrite Ec, group_eat_caps. reflexivity.
Qed.

Lemma sub_limit_short (fuel : nat) :
  forall s prev, length s < fuel -> short_runs s ->
    sub_fuel fuel limit_pattern _group1_thrice prev s = s.
Proof.
  induction fuel as [|fuel IH]; intros s prev Hlen Hs; [lia|].
  destruct s as [|c r]; [reflexivity|]. rewrite sub_limit_step.
  destruct Hs as [Hc Hr]. rewrite (proj2 (Nat.leb_gt _ _)) by lia.
  rewrite IH; [reflexivity | simpl in Hlen; lia | exact Hr].
Qed.

Lemma sub_limit_run_length (fuel : nat) :
  forall s prev, length s < fuel ->
    run_length p (sub_fuel fuel limit_pattern _group1_thrice prev s)
    = Nat.min 3 (run_length p s).
Proof.
  induction fuel as [|fuel IH]; intros s prev Hlen; [lia|].
  destruct s as [|c r]; [reflexivity|]. rewrite sub_limit_step.
  destruct (4 <=? run_length p (c :: r)) eqn:E.
  - apply Nat.leb_le in E. cbv zeta.
    assert (Hl : p (run_last p c r) = true).
    { apply run_last_class. cbn [run_length] in E. destruct (p c); [reflexivity | lia]. }
    assert (Hrest : run_length p
              (sub_fuel fuel limit_pattern _group1_thrice (fst (eat p prev (c :: r)))
                 (drop (run_length p (c :: r)) (c :: r))) = 0).
    { rewrite IH, run_length_after_run; [reflexivity|].
      rewrite length_drop. simpl in *. lia. }
    set (rest := sub_fuel fuel limit_pattern _group1_thrice _ _) in *.
    change (run_length p (run_last p c r :: run_last p c r :: run_last p c r :: rest))
      with (if p (run_last p c r)
            then S (if p (run_last p c r)
                    then S (if p (run_last p c r) then S (run_length p rest) else 0)
                    else 0)
            else 0).
    rewrite Hl, Hrest. lia.
  - apply Nat.leb_gt in E. cbn [run_length] in *. destruct (p c).
    + rewrite IH by (simpl in Hlen; lia). lia.
    + reflexivity.
Qed.

Lemma sub_limit_short_runs (fuel : nat) :
  forall s prev, length s < fuel ->
    short_runs (sub_fuel fuel limit_pattern _group1_thrice prev s).
Proof.
  induction fuel as [|fuel IH]; intros s prev Hlen; [lia|].
  destruct s as [|c r]; [exact I|].
  assert (Hrl := sub_limit_run_length (S fuel) (c :: r) prev Hlen).
  rewrite sub_limit_step in *.
  destruct (4 <=? run_length p (c :: r)) eqn:E.
  - apply Nat.leb_le in E. cbv zeta in *.
    set (rest := sub_fuel fuel limit_pattern _group1_thrice _ _) in *.
    assert (Hrest : short_runs rest).
    { apply IH. rewrite length_drop. simpl in *. lia. }
    cbn [short_runs]. cbn [run_length] in Hrl |- *.
    destruct (p (run_last p c r)); repeat split; try lia; exact Hrest.
  - cbn [short_runs]. split; [lia|]. apply IH. simpl in Hlen. lia.
Qed.

Lemma squeezed_after_run (x : char) (s : str) :
  forall b, 1 <= run_length p s -> squeezed isspace x b s ->
            squeezed isspace x false (drop (run_length p s) s).
Proof.
  induction s as [|c r IH]; intros b Hn Hs; [simpl in Hn; lia|].
  cbn [run_length] in *. destruct (p c) eqn:Ec; [|lia].
  cbn [squeezed drop] in *. rewrite (p_not_space c Ec) in Hs.
  destruct r as [|c' r']; [exact I|].
  destruct (p c') eqn:Ec'.
  - apply (IH false); [cbn [run_length]; rewrite Ec'; lia | exact Hs].
  - cbn [run_length]. rewrite Ec'. exact Hs.
Qed.

Lemma sub_limit_squeezed (x : char) (fuel : nat) :
  forall s prev b, length s < fuel -> squeezed isspace x b s ->
    squeezed isspace x b (sub_fuel fuel limit_pattern _group1_thrice prev s).
Proof.
  induction fuel as [|fuel IH]; intros s prev b Hlen Hs; [lia|].
  destruct s as [|c r]; [exact I|]. rewrite sub_limit_step.
  destruct (4 <=? run_length p (c :: r)) eqn:E.
  - apply Nat.leb_le in E. cbv zeta.
    assert (Hl : isspace (run_last p c r) = false).
    { apply p_not_space, run_last_class.
      cbn [run_length] in E. destruct (p c); [reflexivity | lia]. }
    cbn [squeezed]. rewrite Hl. apply IH.
    + rewrite length_drop. simpl in *. lia.
    + apply (squeezed_after_run x (c :: r) b); [lia | exact Hs].
  - cbn [squeezed] in *. destruct (isspace c).
    + destruct Hs as (-> & -> & Hr). repeat split. apply IH; [simpl in Hlen; lia | exact Hr].
    + apply IH; [simpl in Hlen; lia | exact Hs].
Qed.

Lemma short_runs_lstrip (s : str) : short_runs s -> short_runs (lstrip s).
Proof.
  induction s as [|c r IH]; [auto|]. intros Hs. cbn [lstrip].
  destruct (isspace c); [apply IH, Hs | exact Hs].
Qed.

Lemma run_length_rstrip (s : str) : run_length p (rstrip s) <= run_length p s.
Proof.
  induction s as [|c r IH]; [reflexivity|]. cbn [rstrip].
  destruct (rstrip r) as [|c' r'] eqn:Er.
  - destruct (isspace c) eqn:Ec; cbn [run_length]; destruct (p c); lia.
  - cbn [run_length] in *. destruct (p c); lia.
Qed.

Lemma short_runs_rstrip (s : str) : short_runs s -> short_runs (rstrip s).
Proof.
  induction s as [|c r IH]; [auto|]. intros [Hc Hr].
  assert (Hl := run_length_rstrip (c :: r)). cbn [rstrip] in *.
  destruct (rstrip r) as [|c' r'] eqn:Er.
  - destruct (isspace c); [exact I|]. cbn [short_runs]. split; [lia | exact I].
  - cbn [short_runs]. split; [lia|]. apply IH, Hr.
Qed.

End Limit.


End ReProperties.

(** ** Analyzer: history projection, cached results and returned points *)

Module AnalyzerProperties.
Import TextAnalyzer.

(** A text without phone numbers, for the matcher. *)
Definition no_phone_numbers : str -> exn (list (nat * nat)) := fun _ => Ok [].

(** The service as the container wires it when no API key is set: the
    heuristic parser, the mock LLM parser, rapidfuzz's ratio. *)
Definition mock_env : Collaborators := {|
  PhoneNumberMatcher := no_phone_numbers;
  fuzz_ratio := PostprocessorService.indel_ratio;
  heuristic_parser := HeuristicParser.parse 0;
  llm_parser := MockLLMParser.parse_with_llm;
  today := 739558;
  model_dump_json := fun _ => u "{}";
  model_load_json := fun _ => Raised
|}.

Definition pii_preprocessor : Preprocessor.TextPreprocessor :=
  {| Preprocessor.enabled := true |}.

(** The cache service with the digest left as the identity. *)
Definition plain_cache : CacheService InMemoryCacheService.t :=
  InMemoryCacheService.service (fun s => s).


(** An LLM that answers with one achievement of weight 0. *)
Definition llm_weight_zero (text : str) : RawParseResult :=
  {| actions := [RawAction.mk (u "спорт") (Some (u "кардио")) (u "пробежал 10 км")
                   ACHIEVEMENT (Some 60) 0.95 (Some 0) (u "llm")];
     confidence := 0.95; latency_ms := 500; errors := [] |}.


(** A serialization that gives back [stored]. *)
Definition caching_env (stored : AnalysisResult.t) : Collaborators := {|
  PhoneNumberMatcher := no_phone_numbers;
  fuzz_ratio := PostprocessorService.indel_ratio;
  heuristic_parser := HeuristicParser.parse 0;
  llm_parser := MockLLMParser.parse_with_llm;
  today := 739558;
  model_dump_json := fun _ => u "{json}";
  model_load_json := fun _ => Ok stored
|}.

(** A call with the date 739000 on an empty store with an empty cache. *)
Definition first_call (env : Collaborators)
  : exn (AnalysisResult.t * (InMemoryHistoryService.t * option InMemoryCacheService.t)) :=
  @analyze_text _ _ InMemoryHistoryService.service plain_cache env pii_preprocessor
    PostprocessorService.default default_settings
    (InMemoryHistoryService.empty, Some InMemoryCacheService.empty)
    1 (u "Сходил в зал") (Some 739000).

Definition first_result : AnalysisResult.t :=
  Eval vm_compute in
  match first_call mock_env with
  | Ok (result, _) => result
  | Raised => AnalysisResult.mk 0 0 None [] (Build_AnalysisMeta [] false None None [])
  end.

Definition first_state : InMemoryHistoryService.t * option InMemoryCacheService.t :=
  match first_call (caching_env first_result) with
  | Ok (_, st) => st
  | Raised => (InMemoryHistoryService.empty, None)
  end.

Section Analyzer.
Context {H C : Type} {HS : HistoryLookupService H} {CS : CacheService C}.
Variable env : Collaborators.
Variable preprocessor : Preprocessor.TextPreprocessor.
Variable postprocessor : PostprocessorService.t.
Variable settings : Settings.


Lemma analyze_uncached_history (st st' : H * option C) (user_id : Z) (text : str)
    (analysis_date : date) (result : AnalysisResult.t) :
  _analyze_uncached env preprocessor postprocessor settings st user_id text analysis_date
  = Ok (result, st') ->
  fst st' = _record_actions (fst st) user_id (AnalysisResult.actions result)
  /\ AnalysisResult.date result = analysis_date
  /\ AnalysisResult.raw_text result = None
  /\ snd st' = (if cache_enabled settings
                then _cache_result env settings (snd st) user_id text result
                else snd st).
Proof.
  unfold _analyze_uncached. destruct st as [h c].
  match goal with
  | |- context [mbind _ ?m] => destruct m as [fused|]
  end; cbn [mbind exn_bind]; [|discriminate].
  destruct (PostprocessorService.process (fuzz_ratio env) postprocessor fused)
    as [final|]; cbn [mbind exn_bind]; [|discriminate].
  intros [= <- <-]. cbn [fst snd AnalysisResult.actions AnalysisResult.date
                         AnalysisResult.raw_text].
  repeat split.
Qed.

(** A result under the key of [(user_id, normalize_text(text))] is returned
    as it is, whatever the date argument, and the state is left alone. *)
Lemma cache_hit_returns_cached (st : H * option C) (cache : C) (user_id : Z) (text : str)
    (analysis_date : option date) (c : char) (cached_json : str)
    (result : AnalysisResult.t) :
  cache_enabled settings = true ->
  snd st = Some cache ->
  cache_get cache (generate_cache_key user_id (Preprocessor.normalize_text text))
  = Some (c :: cached_json) ->
  model_load_json env (c :: cached_json) = Ok result ->
  analyze_text env preprocessor postprocessor settings st user_id text analysis_date
  = Ok (result, st).
Proof.
  intros He Hc Hg Hl. unfold analyze_text, _get_cached_result.
  rewrite Hc, He, Hg. cbv iota beta. rewrite Hl.
  rewrite bool_decide_eq_true_2 by (eexists; reflexivity). reflexivity.
Qed.

End Analyzer.




(** C9.  With caching enabled, let a first call of [analyze_text] for
    [(user_id, text)] with the date [d1] miss the cache and return [r1].
    Then the date of [r1] is [d1] (today's date when none was given), and a
    later call for the same [(user_id, text)] with any date [d2] returns
    [r1], with the date [d1], and changes nothing: the key under which the
    result is stored and looked up is made of [user_id] and
    [normalize_text(text)] alone.  The serialization is taken to give a
    non-empty string from which the result is read back. *)
Theorem cached_result_keeps_first_date :
  forall (H : Type) (HS : HistoryLookupService H) (sha256_hexdigest : str -> str)
         (env : Collaborators) (preprocessor : Preprocessor.TextPreprocessor)
         (postprocessor : PostprocessorService.t) (settings : Settings)
         (history : H) (cache : InMemoryCacheService.t) (user_id : Z) (text : str)
         (d1 d2 : option date) (r1 : AnalysisResult.t)
         (st1 : H * option InMemoryCacheService.t),
    let CS := InMemoryCacheService.service sha256_hexdigest in
    let analyze := @analyze_text H _ HS CS env preprocessor postprocessor settings in
    cache_enabled settings = true ->
    _get_cached_result (CS := CS) env (Some cache) user_id text (default (today env) d1)
    = None ->
    analyze (history, Some cache) user_id text d1 = Ok (r1, st1) ->
    model_dump_json env r1 <> [] ->
    model_load_json env (model_dump_json env r1) = Ok r1 ->
    AnalysisResult.date r1 = default (today env) d1
    /\ snd st1
       = Some (<[InMemoryCacheService.generate_cache_key sha256_hexdigest user_id
                   (Preprocessor.normalize_text text) := model_dump_json env r1]> cache)
    /\ analyze st1 user_id text d2 = Ok (r1, st1).
Proof.
  intros H HS sha env preprocessor postprocessor settings history cache user_id text
         d1 d2 r1 st1 CS analyze He Hmiss Hfirst Hne Hload.
  subst analyze. unfold analyze_text in Hfirst. cbn [snd] in Hfirst.
  rewrite He, Hmiss in Hfirst.
  rewrite bool_decide_eq_true_2 in Hfirst by (eexists; reflexivity).
  cbn [andb] in Hfirst.
  apply analyze_uncached_history in Hfirst as (_ & Hd & _ & Hc).
  rewrite He in Hc. cbn [snd _cache_result] in Hc.
  split; [exact Hd|]. split; [exact Hc|].
  destruct (model_dump_json env r1) as [|c json] eqn:Ej; [contradiction|].
  eapply cache_hit_returns_cached; [exact He | exact Hc | | exact Hload].
  cbn. unfold InMemoryCacheService.get, InMemoryCacheService.set.
  unfold InMemoryCacheService.t. apply lookup_insert_eq.
Qed.

Lemma cached_result_keeps_first_date_witness :
  AnalysisResult.date first_result = 739000
  /\ snd first_state
     = Some (<[InMemoryCacheService.generate_cache_key (fun s => s) 1
                 (Preprocessor.normalize_text (u "Сходил в зал")) := u "{json}"]>
               InMemoryCacheService.empty)
  /\ @analyze_text _ _ InMemoryHistoryService.service plain_cache
       (caching_env first_result) pii_preprocessor PostprocessorService.default
       default_settings first_state 1 (u "Сходил в зал") (Some 739365)
     = Ok (first_result, first_state).
Proof.
  apply (cached_result_keeps_first_date _ InMemoryHistoryService.service (fun s => s)
           (caching_env first_result) pii_preprocessor PostprocessorService.default
           default_settings InMemoryHistoryService.empty InMemoryCacheService.empty
           1 (u "Сходил в зал") (Some 739000) (Some 739365) first_result first_state).
  - reflexivity.
  - vm_compute. reflexivity.
  - vm_compute. reflexivity.
  - vm_compute. discriminate.
  - reflexivity.
Defined.


End AnalyzerProperties.

(** ** Preprocessor: repeated runs *)

Module PreprocessorProperties.
Import Re Preprocessor ReProperties.

Definition redacting : TextPreprocessor := {| enabled := true |}.
Definition cleaning_only : TextPreprocessor := {| enabled := false |}.

(** A text with two phone numbers, and what one and two runs make of it. *)
Definition two_phones : str := u "+7 (999) 123-45-67 и 89997654321 завтра".
Definition two_phones_once : str := u "<PHONE> и 89997654321<PHONE>".
Definition two_phones_twice : str := u "<PHONE> и <PHONE><PHONE>".

(** A matcher that reports the numbers of the two texts above and nothing
    elsewhere. *)
Definition two_phones_matcher (text : str) : exn (list (nat * nat)) :=
  if bool_decide (text = two_phones) then Ok [(0, 18); (21, 32)]%nat
  else if bool_decide (text = two_phones_once) then Ok [(10, 21)]%nat
  else Ok [].

Lemma preprocess_redacting (PhoneNumberMatcher : str -> exn (list (nat * nat))) (text : str) :
  text <> [] ->
  preprocess PhoneNumberMatcher redacting text
  = _redact_pii PhoneNumberMatcher (_clean_text text).
Proof. destruct text; [contradiction | reflexivity]. Qed.

Lemma preprocess_cleaning_only (PhoneNumberMatcher : str -> exn (list (nat * nat)))
    (text : str) :
  preprocess PhoneNumberMatcher cleaning_only text = _clean_text text.
Proof. destruct text; reflexivity. Qed.

(** C7 at a text with two phone numbers, redaction enabled.  Let the
    matcher report the two numbers of "+7 (999) 123-45-67 и 89997654321
    завтра" at the offsets 0..18 and 21..32.  The first number is replaced;
    for the second the loop slices the shortened text at 21..32, finds
    " завтра" there and replaces that, so the run returns "<PHONE> и
    89997654321<PHONE>" with the second number intact.  When the matcher
    reports that number in the returned text, a second run replaces it: the
    two runs differ. *)
Theorem preprocess_twice_differs :
  forall PhoneNumberMatcher : str -> exn (list (nat * nat)),
    PhoneNumberMatcher two_phones = Ok [(0, 18); (21, 32)]%nat ->
    PhoneNumberMatcher two_phones_once = Ok [(10, 21)]%nat ->
    preprocess PhoneNumberMatcher redacting two_phones = two_phones_once
    /\ contains (u "89997654321") (preprocess PhoneNumberMatcher redacting two_phones)
       = true
    /\ preprocess PhoneNumberMatcher redacting
         (preprocess PhoneNumberMatcher redacting two_phones)
       = two_phones_twice
    /\ two_phones_twice <> two_phones_once.
Proof.
  intros PM H0 H1.
  assert (E0 : preprocess PM redacting two_phones = two_phones_once).
  { rewrite preprocess_redacting by (vm_compute; discriminate).
    unfold _redact_pii, _redact_phone_numbers.
    replace (Re.sub _email_pattern (Re.const "<EMAIL>") (_clean_text two_phones))
      with two_phones by (vm_compute; reflexivity).
    rewrite H0. vm_compute. reflexivity. }
  assert (E1 : preprocess PM redacting two_phones_once = two_phones_twice).
  { rewrite preprocess_redacting by (vm_compute; discriminate).
    unfold _redact_pii, _redact_phone_numbers.
    replace (Re.sub _email_pattern (Re.const "<EMAIL>") (_clean_text two_phones_once))
      with two_phones_once by (vm_compute; reflexivity).
    rewrite H1. vm_compute. reflexivity. }
  rewrite E0, E1.
  split; [reflexivity|]. split; [vm_compute; reflexivity|]. split; [reflexivity|].
  vm_compute. discriminate.
Qed.

Lemma preprocess_twice_differs_witness :
  preprocess two_phones_matcher redacting two_phones = two_phones_once
  /\ contains (u "89997654321") (preprocess two_phones_matcher redacting two_phones)
     = true
  /\ preprocess two_phones_matcher redacting
       (preprocess two_phones_matcher redacting two_phones)
     = two_phones_twice
  /\ two_phones_twice <> two_phones_once.
Proof.
  apply (preprocess_twice_differs two_phones_matcher); vm_compute; reflexivity.
Defined.

(** *** The cleaning passes are idempotent

    The two passes that never consult the phone number matcher are
    idempotent on the character tables of [Py]: the divergence above comes
    from the redaction pass alone. *)

Lemma lower_char_of_lower (x : char) :
  (97 <= x)%N -> (x < 1024 \/ 1072 <= x)%N -> lower_char x = x.
Proof.
  intros H1 H2. unfold lower_char, isupper_ascii.
  assert (E1 : ((65 <=? x) && (x <=? 90))%N = false)
    by (apply andb_false_iff; right; apply N.leb_gt; lia).
  assert (E2 : ((1024 <=? x) && (x <=? 1039))%N = false)
    by (apply andb_false_iff; destruct H2; [left | right]; apply N.leb_gt; lia).
  assert (E3 : ((1040 <=? x) && (x <=? 1071))%N = false)
    by (apply andb_false_iff; destruct H2; [left | right]; apply N.leb_gt; lia).
  rewrite E1, E2, E3. reflexivity.
Qed.

Lemma lower_char_idempotent (c : char) : lower_char (lower_char c) = lower_char c.
Proof.
  unfold lower_char at 2 3. unfold isupper_ascii.
  destruct ((65 <=? c) && (c <=? 90))%N eqn:E1.
  { apply andb_true_iff in E1 as [Ha Hb]. apply N.leb_le in Ha, Hb.
    apply lower_char_of_lower; lia. }
  destruct ((1024 <=? c) && (c <=? 1039))%N eqn:E2.
  { apply andb_true_iff in E2 as [Ha Hb]. apply N.leb_le in Ha, Hb.
    apply lower_char_of_lower; lia. }
  destruct ((1040 <=? c) && (c <=? 1071))%N eqn:E3.
  { apply andb_true_iff in E3 as [Ha Hb]. apply N.leb_le in Ha, Hb.
    apply lower_char_of_lower; lia. }
  unfold lower_char, isupper_ascii. rewrite E1, E2, E3. reflexivity.
Qed.

(** A character that [normalize_text] keeps and does not change. *)
Definition normal_char (c : char) : Prop :=
  negb (isword c || isspace c) = false /\ lower_char c = c.

Lemma normalize_text_unfold (text : str) :
  normalize_text text
  = strip (squeeze isspace 32%N false
             (List.filter (fun c => negb (negb (isword c || isspace c))) (lower text))).
Proof.
  unfold normalize_text, _punctuation, _whitespace, s_.
  rewrite (sub_class_empty _ _ _ eq_refl).
  rewrite (sub_plus_squeeze isspace 32%N _ _ eq_refl). reflexivity.
Qed.

Lemma normal_chars_fixed (s : str) :
  Forall normal_char s ->
  List.filter (fun c => negb (negb (isword c || isspace c))) (lower s) = s.
Proof.
  induction 1 as [|c r [Hk Hl] _ IH]; [reflexivity|].
  cbn [lower map List.filter]. rewrite Hl, Hk. cbn [negb].
  unfold lower in IH. rewrite IH. reflexivity.
Qed.

Lemma filtered_lower_normal (text : str) :
  Forall normal_char
    (List.filter (fun c => negb (negb (isword c || isspace c))) (lower text)).
Proof.
  apply List.Forall_forall. intros c Hc. apply filter_In in Hc as [Hin Hk].
  split.
  - destruct (negb (isword c || isspace c)); [discriminate | reflexivity].
  - unfold lower in Hin. apply in_map_iff in Hin as [c0 [<- _]].
    apply lower_char_idempotent.
Qed.

(** X3. [normalize_text] (lower-case, drop punctuation, collapse white
    space, strip) is idempotent: the cache key and the history key of a
    normalized text are those of the text. *)
Theorem normalize_text_idempotent (text : str) :
  normalize_text (normalize_text text) = normalize_text text.
Proof.
  rewrite (normalize_text_unfold text).
  set (z := List.filter _ (lower text)).
  assert (Hn : Forall normal_char (strip (squeeze isspace 32%N false z))).
  { unfold strip. apply Forall_rstrip, Forall_lstrip, Forall_squeeze.
    - split; reflexivity.
    - apply filtered_lower_normal. }
  assert (Hs : squeezed isspace 32%N false (strip (squeeze isspace 32%N false z))).
  { unfold strip. apply squeezed_rstrip.
    apply (squeezed_lstrip 32%N _ false), squeeze_squeezed. reflexivity. }
  rewrite normalize_text_unfold, (normal_chars_fixed _ Hn).
  rewrite (squeezed_fixed isspace 32%N _ false Hs).
  apply strip_idempotent.
Qed.

Lemma punctuation_not_space (c : char) :
  bool_decide (c ∈ u "!?.,") = true -> isspace c = false.
Proof.
  intros Hc. apply bool_decide_eq_true in Hc.
  change (u "!?.,") with [33%N; 63%N; 46%N; 44%N] in Hc.
  repeat (apply elem_of_cons in Hc as [-> | Hc]; [reflexivity|]).
  inversion Hc.
Qed.

Lemma clean_text_unfold (text : str) :
  _clean_text text
  = strip (sub_fuel (S (length (squeeze isspace 32%N false text)))
             (ReProperties.limit_pattern (fun c => bool_decide (c ∈ u "!?.,"))) _group1_thrice None
             (squeeze isspace 32%N false text)).
Proof.
  unfold _clean_text, _whitespace, s_.
  rewrite (sub_plus_squeeze isspace 32%N _ _ eq_refl). reflexivity.
Qed.

(** [_clean_text] (collapse white space, cut runs of four or more of one
    punctuation mark to three, strip) is idempotent. *)
Theorem clean_text_idempotent (text : str) :
  _clean_text (_clean_text text) = _clean_text text.
Proof.
  rewrite (clean_text_unfold text).
  set (p := fun c => bool_decide (c ∈ u "!?.,")).
  set (z := squeeze isspace 32%N false text).
  set (w := sub_fuel (S (length z)) (ReProperties.limit_pattern p) _group1_thrice None z).
  assert (Hq : squeezed isspace 32%N false (strip w)).
  { unfold strip. apply squeezed_rstrip, (squeezed_lstrip 32%N _ false).
    apply sub_limit_squeezed; [exact punctuation_not_space | lia |].
    apply squeeze_squeezed. reflexivity. }
  assert (Hs : short_runs p (strip w)).
  { unfold strip. apply short_runs_rstrip, short_runs_lstrip, sub_limit_short_runs. lia. }
  rewrite clean_text_unfold.
  rewrite (squeezed_fixed isspace 32%N _ false Hq).
  fold p. rewrite (sub_limit_short p) by (try lia; exact Hs).
  apply strip_idempotent.
Qed.

(** X4. With redaction disabled, [preprocess] is [_clean_text], whatever
    the phone number matcher, and running it twice equals running it
    once. *)
Theorem preprocess_cleaning_idempotent :
  forall (PhoneNumberMatcher : str -> exn (list (nat * nat))) (text : str),
    preprocess PhoneNumberMatcher cleaning_only
      (preprocess PhoneNumberMatcher cleaning_only text)
    = preprocess PhoneNumberMatcher cleaning_only text.
Proof.
  intros PM text. rewrite !preprocess_cleaning_only. apply clean_text_idempotent.
Qed.

End PreprocessorProperties.

(** ** Binary64: integers, order and signs *)

Module FloatProperties.








End FloatProperties.

Module FloatOrder.
Import FloatProperties.

(** *** The order of binary64 values *)

Lemma SFcompare_antisym (x y : spec_float) :
  SFcompare y x = option_map CompOpp (SFcompare x y).
Proof.
  destruct x as [sx|sx| |sx mx ex], y as [sy|sy| |sy my ey]; cbn;
    try reflexivity;
    try (destruct sx; reflexivity); try (destruct sy; reflexivity);
    try (destruct sx, sy; reflexivity).
  destruct sx, sy; try reflexivity; f_equal;
    rewrite (Z.compare_antisym ex ey); destruct (ex ?= ey); cbn; try reflexivity.
  - f_equal. symmetry. exact (Pos.compare_cont_antisym mx my Eq).
  - symmetry. exact (Pos.compare_cont_antisym mx my Eq).
Qed.

Definition not_nan (x : float) : Prop := Prim2SF x <> S754_nan.

Lemma SFcompare_some (x y : spec_float) :
  x <> S754_nan -> y <> S754_nan -> exists c, SFcompare x y = Some c.
Proof.
  intros Hx Hy. destruct x as [sx|sx| |sx mx ex], y as [sy|sy| |sy my ey];
    try contradiction; cbn; eexists; reflexivity.
Qed.

(** For values that are numbers, [not (x < y)] gives [y <= x]. *)
Lemma ltb_false_leb (x y : float) :
  not_nan x -> not_nan y -> PrimFloat.ltb x y = false -> PrimFloat.leb y x = true.
Proof.
  unfold not_nan. rewrite ltb_spec, leb_spec. unfold SFltb, SFleb.
  intros Hx Hy. rewrite (SFcompare_antisym (Prim2SF x) (Prim2SF y)).
  destruct (SFcompare_some _ _ Hx Hy) as [c ->]. cbn. destruct c; cbn; congruence.
Qed.

Lemma ltb_nan_l (x y : float) : Prim2SF x = S754_nan -> PrimFloat.ltb x y = false.
Proof. rewrite ltb_spec. intros ->. reflexivity. Qed.

Lemma ltb_nan_r (x y : float) : Prim2SF y = S754_nan -> PrimFloat.ltb x y = false.
Proof. rewrite ltb_spec. intros ->. unfold SFltb, SFcompare. destruct (Prim2SF x); reflexivity. Qed.

Lemma leb_nan_r (x y : float) : Prim2SF y = S754_nan -> PrimFloat.leb x y = false.
Proof. rewrite leb_spec. intros ->. unfold SFleb, SFcompare. destruct (Prim2SF x); reflexivity. Qed.

Lemma leb_nan_l (x y : float) : Prim2SF x = S754_nan -> PrimFloat.leb x y = false.
Proof. rewrite leb_spec. intros ->. reflexivity. Qed.

Lemma leb_not_nan (x y : float) : PrimFloat.leb x y = true -> not_nan x /\ not_nan y.
Proof.
  intros H. split; intros E.
  - rewrite leb_nan_l in H by exact E. discriminate.
  - rewrite leb_nan_r in H by exact E. discriminate.
Qed.

(** *** Signs *)









End FloatOrder.

(** ** HistoryStore: lookups after a recording, and the statistics of a user *)

Module HistoryLookupProperties.
Import HistoryProperties FloatProperties.


(** The row that the SQLite lookup falls back to is never written. *)
Lemma sqlite_null_row_untouched (db : SQLiteHistoryService.t) (uid : Z) (text : str) (t : Z)
    (normalized : str) :
  List.find (SQLiteHistoryService.is_null_row_of normalized)
            (SQLiteHistoryService.record_action db uid text t)
  = List.find (SQLiteHistoryService.is_null_row_of normalized) db.
Proof.
  unfold SQLiteHistoryService.record_action.
  generalize (Preprocessor.normalize_text text). intros norm.
  destruct (List.find (SQLiteHistoryService.is_row_of uid norm) db) as [r|].
  - apply find_map_untouched.
    + intros x. destruct (SQLiteHistoryService.is_row_of uid norm x); reflexivity.
    + intros x Hx. destruct (SQLiteHistoryService.is_row_of uid norm x) eqn:E; [|reflexivity].
      exfalso. unfold SQLiteHistoryService.is_null_row_of, SQLiteHistoryService.is_row_of in *.
      apply andb_true_iff in Hx as [Hx _], E as [E _].
      apply bool_decide_eq_true in Hx, E. congruence.
  - rewrite find_app_new.
    destruct (List.find (SQLiteHistoryService.is_null_row_of normalized) db); reflexivity.
Qed.

(** What the SQLite lookup returns, by the pair of the user's own row and
    the fallback row. *)
Lemma sqlite_get_average_time_rows (db : SQLiteHistoryService.t) (uid : Z) (text : str) :
  SQLiteHistoryService.get_average_time db uid text
  = match sqlite_row db (uid, Preprocessor.normalize_text text) with
    | Some (avg, _) => average_as_int avg
    | None =>
        match List.find (SQLiteHistoryService.is_null_row_of (Preprocessor.normalize_text text)) db with
        | Some r => average_as_int (SQLiteHistoryService.avg_time_minutes r)
        | None => Ok None
        end
    end.
Proof.
  unfold SQLiteHistoryService.get_average_time, SQLiteHistoryService.select_average, sqlite_row.
  cbn [fst snd].
  destruct (List.find (SQLiteHistoryService.is_row_of uid _) db); reflexivity.
Qed.





(** X6. A recording changes no lookup under another key.  In the SQLite
    store a recording under one (user, normalized text) leaves every lookup
    of another pair as it was.  In the dictionary store this holds as long
    as the recording is not the global row of the text looked up, which a
    lookup falls back to. *)
Theorem record_leaves_other_keys :
  forall (uid : Z) (text : str) (t : Z) (uid' : Z) (text' : str),
    (uid, Preprocessor.normalize_text text) <> (uid', Preprocessor.normalize_text text') ->
    (forall db : SQLiteHistoryService.t,
        SQLiteHistoryService.get_average_time
          (SQLiteHistoryService.record_action db uid text t) uid' text'
        = SQLiteHistoryService.get_average_time db uid' text')
    /\ (forall data : InMemoryHistoryService.t,
        (uid, Preprocessor.normalize_text text) <> (0, Preprocessor.normalize_text text') ->
        InMemoryHistoryService.get_average_time
          (InMemoryHistoryService.record_action data uid text t) uid' text'
        = InMemoryHistoryService.get_average_time data uid' text').
Proof.
  intros uid text t uid' text' Hk. split.
  - intros db. rewrite !sqlite_get_average_time_rows.
    rewrite sqlite_record_lookup, sqlite_null_row_untouched.
    unfold key_of; cbn [fst snd]. rewrite bool_decide_eq_false_2 by exact Hk. reflexivity.
  - intros data Hg. unfold InMemoryHistoryService.get_average_time.
    assert (E1 := in_memory_record_lookup data uid text t (uid', Preprocessor.normalize_text text')).
    assert (E2 := in_memory_record_lookup data uid text t (0, Preprocessor.normalize_text text')).
    unfold key_of in E1, E2; cbn [fst snd] in E1, E2.
    rewrite bool_decide_eq_false_2 in E1 by exact Hk.
    rewrite bool_decide_eq_false_2 in E2 by exact Hg.
    unfold InMemoryHistoryService.t in *. rewrite E1, E2. reflexivity.
Qed.

Lemma record_leaves_other_keys_witness :
  SQLiteHistoryService.get_average_time
    (SQLiteHistoryService.record_action
       (SQLiteHistoryService.record_action SQLiteHistoryService.empty 2 (u "бег") 20)
       1 (u "бег") 30) 2 (u "Бег!")
  = SQLiteHistoryService.get_average_time
      (SQLiteHistoryService.record_action SQLiteHistoryService.empty 2 (u "бег") 20)
      2 (u "Бег!")
  /\ InMemoryHistoryService.get_average_time
       (InMemoryHistoryService.record_action
          (InMemoryHistoryService.record_action InMemoryHistoryService.empty 2 (u "бег") 20)
          1 (u "бег") 30) 2 (u "Бег!")
     = InMemoryHistoryService.get_average_time
         (InMemoryHistoryService.record_action InMemoryHistoryService.empty 2 (u "бег") 20)
         2 (u "Бег!").
Proof.
  assert (Hk : (1, Preprocessor.normalize_text (u "бег"))
               <> (2, Preprocessor.normalize_text (u "Бег!"))) by (intros [= E]).
  destruct (record_leaves_other_keys 1 (u "бег") 30 2 (u "Бег!") Hk) as [A B].
  split; [apply A | apply B]. intros [= E].
Defined.

End HistoryLookupProperties.

Module UserStatsProperties.
Import HistoryProperties SQLiteHistoryService.

Definition row_key (r : row) : option Z * str := (user_id r, normalized_text r).

Definition own_rows (uid : Z) (db : t) : list row :=
  List.filter (fun r => bool_decide (user_id r = Some uid)) db.

Definition occurrences_sum (rows : list row) : Z := fold_right Z.add 0 (map occurrences rows).

(** Every row counts at least one occurrence. *)
Definition counted (db : t) : Prop := Forall (fun r => 1 <= occurrences r) db.

Lemma occurrences_sum_pos (rows : list row) :
  counted rows -> rows <> [] -> 1 <= occurrences_sum rows.
Proof.
  intros Hc Hne. destruct Hc as [|r rows Hr Hrest]; [contradiction|].
  unfold occurrences_sum. cbn [map fold_right].
  assert (0 <= fold_right Z.add 0 (map occurrences rows)).
  { clear -Hrest. induction Hrest as [|r' rows Hr' _ IH]; cbn; lia. }
  lia.
Qed.

Lemma get_user_stats_sums (db : t) (uid : Z) :
  counted db ->
  get_user_stats db uid
  = {| total_templates := Z.of_nat (length (own_rows uid db));
       total_actions := occurrences_sum (own_rows uid db) |}.
Proof.
  intros Hc. unfold get_user_stats. fold (own_rows uid db).
  assert (Hc' : counted (own_rows uid db)).
  { unfold counted, own_rows. apply List.Forall_forall. intros r Hr.
    apply filter_In in Hr as [Hr _]. eapply List.Forall_forall in Hc; eauto. }
  f_equal.
  - unfold int_or. destruct (Z.eqb_spec (Z.of_nat (length (own_rows uid db))) 0); lia.
  - destruct (own_rows uid db) as [|r rows] eqn:E; [reflexivity|].
    assert (1 <= occurrences_sum (r :: rows)) by (apply occurrences_sum_pos; [exact Hc' | discriminate]).
    unfold int_or. fold (occurrences_sum (r :: rows)).
    destruct (Z.eqb_spec (occurrences_sum (r :: rows)) 0); [lia | reflexivity].
Qed.

(** *** One recording *)

Lemma find_unique_key (db : t) (uid : Z) (normalized : str) (r r' : row) :
  NoDup (map row_key db) ->
  List.find (is_row_of uid normalized) db = Some r ->
  In r' db -> is_row_of uid normalized r' = true -> r' = r.
Proof.
  intros Hnd Hf Hin Hr'.
  assert (Hk : forall x, is_row_of uid normalized x = true -> row_key x = (Some uid, normalized)).
  { intros x Hx. unfold is_row_of in Hx. apply andb_true_iff in Hx as [A B].
    apply bool_decide_eq_true in A, B. unfold row_key. congruence. }
  induction db as [|x db IH]; [discriminate|].
  cbn [map] in Hnd. apply NoDup_cons in Hnd as [Hx Hnd].
  cbn [List.find] in Hf. destruct (is_row_of uid normalized x) eqn:Ex.
  - injection Hf as <-. destruct Hin as [<- | Hin]; [reflexivity|].
    exfalso. apply Hx. rewrite (Hk x Ex), <- (Hk r' Hr').
    apply list_elem_of_In, in_map, Hin.
  - destruct Hin as [<- | Hin]; [congruence|]. apply IH; assumption.
Qed.

Definition bump (uid : Z) (normalized : str) (avg : float) (r : row) : row :=
  if is_row_of uid normalized r
  then {| user_id := user_id r; normalized_text := normalized_text r;
          avg_time_minutes := avg; occurrences := occurrences r + 1 |}
  else r.

Lemma record_action_cases (db : t) (uid : Z) (text : str) (time : Z) :
  NoDup (map row_key db) ->
  let normalized := Preprocessor.normalize_text text in
  match List.find (is_row_of uid normalized) db with
  | Some r =>
      record_action db uid text time
      = map (bump uid normalized
               (incremental_average (avg_time_minutes r) (occurrences r) time)) db
  | None =>
      record_action db uid text time
      = db ++ [{| user_id := Some uid; normalized_text := normalized;
                  avg_time_minutes := float_of_int time; occurrences := 1 |}]
  end.
Proof.
  intros Hnd normalized. unfold record_action. fold normalized.
  destruct (List.find (is_row_of uid normalized) db) as [r|] eqn:F; [|reflexivity].
  apply map_ext_in. intros r' Hin. unfold bump.
  destruct (is_row_of uid normalized r') eqn:E; [|reflexivity].
  rewrite (find_unique_key db uid normalized r r' Hnd F Hin E). reflexivity.
Qed.

Lemma bump_key uid normalized avg r : row_key (bump uid normalized avg r) = row_key r.
Proof. unfold bump. destruct (is_row_of uid normalized r); reflexivity. Qed.

Lemma record_action_keys (db : t) (uid : Z) (text : str) (time : Z) :
  NoDup (map row_key db) ->
  NoDup (map row_key (record_action db uid text time)).
Proof.
  intros Hnd. assert (C := record_action_cases db uid text time Hnd). cbv zeta in C.
  destruct (List.find _ db) as [r|] eqn:F; rewrite C.
  - rewrite map_map. erewrite map_ext; [exact Hnd|]. intros x. apply bump_key.
  - rewrite map_app. cbn [map]. apply NoDup_app. split; [exact Hnd|]. split.
    + intros k Hk Hk'. apply list_elem_of_singleton in Hk'. subst k.
      apply list_elem_of_In, in_map_iff in Hk as (x & Ex & Hin).
      assert (is_row_of uid (Preprocessor.normalize_text text) x = true).
      { unfold row_key in Ex. injection Ex as E1 E2. unfold is_row_of.
        rewrite !bool_decide_eq_true_2 by assumption. reflexivity. }
      eapply find_none in F; [|exact Hin]. congruence.
    + apply NoDup_singleton.
Qed.

Lemma record_action_counted (db : t) (uid : Z) (text : str) (time : Z) :
  counted db -> counted (record_action db uid text time).
Proof.
  unfold counted, record_action. intros Hc.
  destruct (List.find _ db) as [r|] eqn:F.
  - apply Forall_map. apply List.Forall_forall. intros x Hx.
    assert (1 <= occurrences x) by (eapply List.Forall_forall in Hc; eauto).
    assert (1 <= occurrences r).
    { apply find_some in F as [F _]. eapply List.Forall_forall in Hc; eauto. }
    simpl. destruct (is_row_of _ _ x); simpl; lia.
  - apply Forall_app. split; [exact Hc|]. repeat constructor. simpl. lia.
Qed.

Lemma bump_other uid normalized avg r : is_row_of uid normalized r = false -> bump uid normalized avg r = r.
Proof. unfold bump. intros ->. reflexivity. Qed.

Lemma bump_user uid normalized avg r : user_id (bump uid normalized avg r) = user_id r.
Proof. unfold bump. destruct (is_row_of uid normalized r); reflexivity. Qed.

Lemma bump_occurrences uid normalized avg r :
  occurrences (bump uid normalized avg r)
  = occurrences r + (if is_row_of uid normalized r then 1 else 0).
Proof. unfold bump. destruct (is_row_of uid normalized r); cbn; lia. Qed.

Lemma is_row_of_user uid normalized r : is_row_of uid normalized r = true -> user_id r = Some uid.
Proof.
  unfold is_row_of. intros E. apply andb_true_iff in E as [E _].
  apply bool_decide_eq_true in E. exact E.
Qed.

Lemma own_rows_bump_other (uid uid' : Z) (normalized : str) (avg : float) (db : t) :
  uid <> uid' ->
  own_rows uid' (map (bump uid normalized avg) db) = own_rows uid' db.
Proof.
  intros Hne. unfold own_rows. induction db as [|r db IH]; [reflexivity|].
  cbn [map List.filter]. rewrite bump_user, IH.
  destruct (is_row_of uid normalized r) eqn:E.
  - apply is_row_of_user in E. rewrite bool_decide_eq_false_2 by congruence. reflexivity.
  - rewrite bump_other by exact E. reflexivity.
Qed.

Lemma own_rows_bump (uid : Z) (normalized : str) (avg : float) (db : t) :
  length (own_rows uid (map (bump uid normalized avg) db)) = length (own_rows uid db)
  /\ occurrences_sum (own_rows uid (map (bump uid normalized avg) db))
     = occurrences_sum (own_rows uid db)
       + Z.of_nat (length (List.filter (is_row_of uid normalized) db)).
Proof.
  unfold own_rows, occurrences_sum. induction db as [|r db [IH1 IH2]]; [split; reflexivity|].
  cbn [map List.filter]. rewrite bump_user.
  destruct (bool_decide (user_id r = Some uid)) eqn:Eu.
  - cbn [length map fold_right]. rewrite bump_occurrences, IH1, IH2.
    destruct (is_row_of uid normalized r); cbn [length]; split; lia.
  - destruct (is_row_of uid normalized r) eqn:E.
    + apply is_row_of_user in E. apply bool_decide_eq_false in Eu. contradiction.
    + rewrite IH1, IH2. split; lia.
Qed.

Lemma filter_unique_key (db : t) (uid : Z) (normalized : str) (r : row) :
  NoDup (map row_key db) ->
  List.find (is_row_of uid normalized) db = Some r ->
  length (List.filter (is_row_of uid normalized) db) = 1%nat.
Proof.
  intros Hnd. induction db as [|x db IH]; [discriminate|].
  cbn [map] in Hnd. apply NoDup_cons in Hnd as [Hx Hnd].
  cbn [List.find List.filter]. destruct (is_row_of uid normalized x) eqn:Ex.
  - intros _. cbn [length]. f_equal.
    destruct (List.filter (is_row_of uid normalized) db) as [|y l] eqn:Ef; [reflexivity|].
    exfalso. assert (Hy : In y (List.filter (is_row_of uid normalized) db)) by (rewrite Ef; left; reflexivity).
    apply filter_In in Hy as [Hin Hy]. apply Hx.
    assert (Hk : forall z, is_row_of uid normalized z = true -> row_key z = (Some uid, normalized)).
    { intros z Hz. unfold is_row_of in Hz. apply andb_true_iff in Hz as [A B].
      apply bool_decide_eq_true in A, B. unfold row_key. congruence. }
    rewrite (Hk x Ex), <- (Hk y Hy). apply list_elem_of_In, in_map, Hin.
  - intros F. apply IH; assumption.
Qed.

(** What one recording does to the statistics of a user. *)
Lemma record_action_stats (db : t) (uid : Z) (text : str) (time : Z) (uid' : Z) :
  NoDup (map row_key db) ->
  let db' := record_action db uid text time in
  let fresh := bool_decide (List.find (is_row_of uid (Preprocessor.normalize_text text)) db = None) in
  length (own_rows uid' db')
  = (length (own_rows uid' db) + (if bool_decide (uid = uid') && fresh then 1 else 0))%nat
  /\ occurrences_sum (own_rows uid' db')
     = occurrences_sum (own_rows uid' db) + (if bool_decide (uid = uid') then 1 else 0).
Proof.
  intros Hnd db' fresh. subst db' fresh.
  assert (C := record_action_cases db uid text time Hnd). cbv zeta in C.
  destruct (List.find _ db) as [r|] eqn:F; rewrite C.
  - rewrite (bool_decide_eq_false_2 (Some r = None)) by discriminate. rewrite andb_false_r.
    case_bool_decide as Eu.
    + subst uid'. destruct (own_rows_bump uid (Preprocessor.normalize_text text)
        (incremental_average (avg_time_minutes r) (occurrences r) time) db) as [L S].
      rewrite L, S, (filter_unique_key db uid _ r Hnd F). split; lia.
    + rewrite own_rows_bump_other by exact Eu. split; lia.
  - rewrite (bool_decide_eq_true_2 (None = None)) by reflexivity. rewrite andb_true_r.
    unfold own_rows. rewrite List.filter_app. cbn [List.filter user_id].
    destruct (decide (uid = uid')) as [Eu|Eu].
    + subst uid'. rewrite !bool_decide_eq_true_2 by reflexivity.
      rewrite length_app. unfold occurrences_sum. rewrite map_app, fold_right_app.
      cbn [length map fold_right occurrences]. split; [lia|].
      generalize (map occurrences (List.filter (fun r => bool_decide (user_id r = Some uid)) db)).
      intros l. induction l as [|a l IH]; cbn; lia.
    + rewrite (bool_decide_eq_false_2 (uid = uid')) by exact Eu.
      rewrite (bool_decide_eq_false_2 (Some uid = Some uid')) by congruence.
      rewrite app_nil_r. split; lia.
Qed.

(** *** A sequence of recordings *)

(** The calls of a user, and the normalized texts they record. *)
Definition own_calls (uid : Z) (calls : list call) : list call :=
  List.filter (fun c => bool_decide (fst (fst c) = uid)) calls.

Definition own_texts (uid : Z) (calls : list call) : list str :=
  map (fun c => Preprocessor.normalize_text (snd (fst c))) (own_calls uid calls).

Lemma record_all_sqlite_snoc (db : t) (calls : list call) (c : call) :
  record_all_sqlite db (calls ++ [c])
  = record_action (record_all_sqlite db calls) (fst (fst c)) (snd (fst c)) (snd c).
Proof. unfold record_all_sqlite. rewrite fold_left_app. reflexivity. Qed.

Lemma record_all_sqlite_keys (calls : list call) :
  NoDup (map row_key (record_all_sqlite empty calls))
  /\ counted (record_all_sqlite empty calls).
Proof.
  induction calls as [|c calls [IH1 IH2]] using rev_ind.
  - split; constructor.
  - rewrite record_all_sqlite_snoc. split.
    + apply record_action_keys, IH1.
    + apply record_action_counted, IH2.
Qed.

Lemma running_row_none (ds : list Z) : running_row None ds = None <-> ds = [].
Proof.
  split; [|intros ->; reflexivity].
  destruct ds as [|d ds]; [reflexivity|].
  destruct (running_row_some ds (float_of_int d) 1) as [avg E].
  unfold running_row in *. cbn [fold_left update_row]. rewrite E. discriminate.
Qed.

Lemma durations_for_nil (uid : Z) (normalized : str) (calls : list call) :
  durations_for (uid, normalized) calls = [] <-> normalized ∉ own_texts uid calls.
Proof.
  unfold durations_for, own_texts, own_calls, key_of.
  induction calls as [|[[u' text] time] calls IH]; cbn [List.filter map fst snd].
  - split; [intros _ H; inversion H | reflexivity].
  - destruct (decide (u' = uid)) as [->|Hu].
    + rewrite (bool_decide_eq_true_2 (uid = uid)) by reflexivity. cbn [map fst snd].
      destruct (decide (Preprocessor.normalize_text text = normalized)) as [<-|Hn].
      * rewrite bool_decide_eq_true_2 by reflexivity. cbn [map].
        split; [discriminate|]. intros H. exfalso. apply H. left.
      * rewrite bool_decide_eq_false_2 by congruence.
        rewrite IH. rewrite not_elem_of_cons. split; [intros H; split; [congruence | exact H] | tauto].
    + rewrite (bool_decide_eq_false_2 (u' = uid)) by exact Hu.
      rewrite bool_decide_eq_false_2 by congruence. exact IH.
Qed.

Lemma find_row_fresh (calls : list call) (uid : Z) (normalized : str) :
  List.find (is_row_of uid normalized) (record_all_sqlite empty calls) = None
  <-> normalized ∉ own_texts uid calls.
Proof.
  rewrite <- durations_for_nil, <- running_row_none.
  assert (E := sqlite_running_row calls empty (uid, normalized)).
  unfold sqlite_row in E; cbn [fst snd List.find option_map empty] in E.
  rewrite <- E.
  destruct (List.find _ _); cbn; split; congruence.
Qed.

Lemma size_list_to_set_snoc (l : list str) (x : str) :
  size (list_to_set (l ++ [x]) : gset str)
  = (size (list_to_set l : gset str) + (if bool_decide (x ∈ l) then 0 else 1))%nat.
Proof.
  rewrite list_to_set_app_L. cbn [list_to_set foldr]. rewrite union_empty_r_L.
  case_bool_decide as Hx.
  - rewrite (union_comm_L (C := gset str)), (subseteq_union_1_L (C := gset str)); [lia|].
    apply singleton_subseteq_l, elem_of_list_to_set, Hx.
  - rewrite size_union.
    + rewrite size_singleton. lia.
    + apply disjoint_singleton_r. rewrite elem_of_list_to_set. exact Hx.
Qed.

(** X7. After any sequence of recordings on an empty table, the statistics of a
    user are the number of different normalized texts the user recorded and
    the number of the user's recordings. *)
Theorem user_stats_count_calls :
  forall (calls : list call) (uid : Z),
    get_user_stats (record_all_sqlite empty calls) uid
    = {| total_templates := Z.of_nat (size (list_to_set (own_texts uid calls) : gset str));
         total_actions := Z.of_nat (length (own_calls uid calls)) |}.
Proof.
  intros calls uid.
  rewrite get_user_stats_sums by apply record_all_sqlite_keys.
  induction calls as [|c calls IH] using rev_ind; [reflexivity|].
  injection IH as IH1 IH2. apply Nat2Z.inj in IH1.
  rewrite record_all_sqlite_snoc.
  destruct (record_action_stats (record_all_sqlite empty calls) (fst (fst c)) (snd (fst c))
              (snd c) uid) as [L S]; [apply record_all_sqlite_keys|].
  rewrite L, S, IH1, IH2.
  assert (Ec : own_calls uid (calls ++ [c])
               = own_calls uid calls ++ (if bool_decide (fst (fst c) = uid) then [c] else [])).
  { unfold own_calls. rewrite List.filter_app. cbn [List.filter].
    destruct (bool_decide (fst (fst c) = uid)); reflexivity. }
  unfold own_texts. rewrite Ec. fold (own_texts uid calls).
  destruct (decide (fst (fst c) = uid)) as [Eu|Eu].
  - rewrite !(bool_decide_eq_true_2 (fst (fst c) = uid)) by exact Eu.
    rewrite map_app, length_app. cbn [map length].
    rewrite size_list_to_set_snoc. cbn [andb].
    assert (F := find_row_fresh calls uid (Preprocessor.normalize_text (snd (fst c)))).
    rewrite Eu. f_equal; [|lia]. f_equal. f_equal.
    destruct F as [F1 F2]. clear L S Ec IH1 IH2.
    case_bool_decide as A; case_bool_decide as B; try reflexivity; exfalso.
    + exact (F1 A B).
    + exact (A (F2 B)).
  - rewrite !(bool_decide_eq_false_2 (fst (fst c) = uid)) by exact Eu.
    rewrite !app_nil_r. cbn [andb]. fold (own_texts uid calls).
    rewrite Nat.add_0_r, Z.add_0_r. reflexivity.
Qed.

End UserStatsProperties.

(** ** Regular expressions: what a match reads and where it ends *)

Module MatcherProperties.
Import Re.
Local Open Scope nat_scope.

(** *** Continuations see suffixes of the text *)

Section Suffix.
Context {A : Type}.





End Suffix.

(** *** Patterns that need a character of a class *)

Section Needs.
Variable q : char -> bool.









End Needs.

End MatcherProperties.

Module SplitProperties.
Import Re ReProperties.
Local Open Scope nat_scope.

Lemma match_at_shorter (r : re) (prev : option char) (s : str) (st : mstate) :
  match_at r prev s = Some st -> length (m_rest st) < length s.
Proof.
  unfold match_at. destruct (run r _ Some) as [st'|]; [|discriminate].
  destruct (length (m_rest st') <? length s) eqn:E; [|discriminate].
  intros [= <-]. apply Nat.ltb_lt, E.
Qed.

(** When every character of a class starts a match, no piece that [split]
    returns holds a character of the class. *)
Lemma split_fuel_pieces (r : re) (q : char -> bool) :
  (forall prev c s, q c = true -> match_at r prev (c :: s) <> None) ->
  forall fuel s prev cur,
    length s < fuel -> Forall (fun c => q c = false) cur ->
    Forall (Forall (fun c => q c = false)) (split_fuel fuel r prev cur s).
Proof.
  intros Hq. induction fuel as [|fuel IH]; intros s prev cur Hlen Hcur; [lia|].
  cbn [split_fuel]. destruct (match_at r prev s) as [st|] eqn:M.
  - constructor; [exact Hcur|]. apply IH; [|constructor].
    apply match_at_shorter in M. lia.
  - destruct s as [|c s']; [repeat constructor; exact Hcur|].
    apply IH; [simpl in Hlen; lia|].
    apply Forall_app. split; [exact Hcur|]. constructor; [|constructor].
    destruct (q c) eqn:E; [|reflexivity]. exfalso. exact (Hq prev c s' E M).
Qed.

Lemma split_pieces (r : re) (q : char -> bool) (s : str) :
  (forall prev c s, q c = true -> match_at r prev (c :: s) <> None) ->
  Forall (Forall (fun c => q c = false)) (split r s).
Proof. intros Hq. apply split_fuel_pieces; [exact Hq | lia | constructor]. Qed.

Lemma match_at_first_branch (p : char -> bool) (b : re) (prev : option char) (c : char)
    (s : str) :
  p c = true -> match_at (Alt (Chr p) b) prev (c :: s) <> None.
Proof.
  intros Hp. unfold match_at. cbn [run m_rest m_caps]. rewrite Hp. cbn [m_rest length].
  rewrite (proj2 (Nat.ltb_lt _ _)) by lia. discriminate.
Qed.

End SplitProperties.

(** ** Preprocessor: the form of cleaned and normalized texts, plain texts and sentences *)

Module CleaningProperties.
Import Re Preprocessor ReProperties PreprocessorProperties.
Local Open Scope nat_scope.

(** *** Reading [squeezed] and [short_runs] on positions *)

Lemma squeezed_class (p : char -> bool) (x : char) (s : str) :
  forall b, squeezed p x b s -> Forall (fun c => p c = true -> c = x) s.
Proof.
  induction s as [|c r IH]; intros b Hs; [constructor|]. cbn [squeezed] in Hs.
  destruct (p c) eqn:Ec.
  - destruct Hs as (-> & _ & Hr). constructor; [reflexivity | eapply IH, Hr].
  - constructor; [congruence | eapply IH, Hs].
Qed.

Lemma squeezed_adjacent (p : char -> bool) (x : char) (l1 : str) :
  forall s b c1 c2 l2,
    squeezed p x b s -> s = l1 ++ c1 :: c2 :: l2 -> p c1 = true -> p c2 = false.
Proof.
  induction l1 as [|a l1 IH]; intros s b c1 c2 l2 Hs -> H1.
  - cbn [app squeezed] in Hs. rewrite H1 in Hs. destruct Hs as (_ & _ & Hs).
    cbn [squeezed] in Hs. destruct (p c2); [|reflexivity].
    destruct Hs as (_ & Hf & _). discriminate.
  - cbn [app squeezed] in Hs. destruct (p a).
    + destruct Hs as (_ & _ & Hs). eapply IH; [exact Hs | reflexivity | exact H1].
    + eapply IH; [exact Hs | reflexivity | exact H1].
Qed.

Lemma short_runs_adjacent (p : char -> bool) (l1 : str) :
  forall s a b c d l2,
    short_runs p s -> s = l1 ++ a :: b :: c :: d :: l2 ->
    p a && p b && p c && p d = false.
Proof.
  induction l1 as [|x l1 IH]; intros s a b c d l2 Hs ->.
  - cbn [app short_runs run_length] in Hs. destruct Hs as [Hs _].
    destruct (p a), (p b), (p c), (p d); try reflexivity. lia.
  - cbn [app short_runs] in Hs. destruct Hs as [_ Hs].
    eapply IH; [exact Hs | reflexivity].
Qed.

(** *** The normalized form *)

(** What [normalize_text] returns: kept characters in lower case, single
    spaces for white space, none at either end. *)
Definition normalized (s : str) : Prop :=
  Forall normal_char s /\ squeezed isspace 32%N false s /\ strip s = s.





(** *** The cleaned form *)

Lemma Forall_sub_limit (P : char -> Prop) (p : char -> bool) (fuel : nat) :
  forall s prev, Forall P s ->
    Forall P (sub_fuel fuel (limit_pattern p) _group1_thrice prev s).
Proof.
  induction fuel as [|fuel IH]; intros s prev Hs; [exact Hs|].
  destruct s as [|c r].
  - cbn [sub_fuel]. unfold limit_pattern. rewrite match_at_runs by lia. constructor.
  - rewrite sub_limit_step. destruct (4 <=? run_length p (c :: r)).
    + cbv zeta. assert (Hl : P (run_last p c r)).
      { inversion Hs as [|? ? Hc Hr]; subst. clear -Hc Hr. revert c Hc.
        induction Hr as [|a l Ha Hl IH]; intros c Hc; [exact Hc|].
        cbn [run_last]. destruct (p a); [apply IH, Ha | exact Hc]. }
      repeat constructor; try exact Hl. apply IH.
      apply Forall_drop, Hs.
    + inversion Hs; subst. constructor; [assumption | apply IH; assumption].
Qed.


(** X9. [_clean_text] returns a text in which every white-space character is a
    space, no two spaces are adjacent, none is at either end, and no four
    adjacent characters are all among [!?.,]; each character it returns
    is a space or a character of the text it was given. *)
Theorem clean_text_shape :
  forall text : str,
    let out := _clean_text text in
    Forall (fun c => isspace c = true -> c = 32%N) out
    /\ (forall l1 c1 c2 l2, out = l1 ++ c1 :: c2 :: l2 -> c1 = 32%N -> c2 <> 32%N)
    /\ strip out = out
    /\ (forall l1 a b c d l2, out = l1 ++ a :: b :: c :: d :: l2 ->
          ~ Forall (fun x => x ∈ u "!?.,") [a; b; c; d])
    /\ Forall (fun c => c = 32%N \/ c ∈ text) out.
Proof.
  intros text out. subst out. rewrite clean_text_unfold.
  set (p := fun c => bool_decide (c ∈ u "!?.,")).
  set (z := squeeze isspace 32%N false text).
  set (w := sub_fuel (S (length z)) (limit_pattern p) _group1_thrice None z).
  assert (Hq : squeezed isspace 32%N false (strip w)).
  { unfold strip. apply squeezed_rstrip, (squeezed_lstrip 32%N _ false).
    apply sub_limit_squeezed; [exact punctuation_not_space | lia |].
    apply squeeze_squeezed. reflexivity. }
  assert (Hs : short_runs p (strip w)).
  { unfold strip. apply short_runs_rstrip, short_runs_lstrip, sub_limit_short_runs. lia. }
  split; [|split; [|split; [|split]]].
  - apply (squeezed_class isspace 32%N _ false Hq).
  - intros l1 c1 c2 l2 E -> ->.
    assert (H := squeezed_adjacent isspace 32%N l1 _ false 32%N 32%N l2 Hq E eq_refl).
    discriminate.
  - apply strip_idempotent.
  - intros l1 a b c d l2 E Hall.
    assert (H := short_runs_adjacent p l1 _ a b c d l2 Hs E).
    inversion Hall as [|? ? Ha Hall1]; subst. inversion Hall1 as [|? ? Hb Hall2]; subst.
    inversion Hall2 as [|? ? Hc Hall3]; subst. inversion Hall3 as [|? ? Hd _]; subst.
    unfold p in H. rewrite !bool_decide_eq_true_2 in H by assumption. discriminate.
  - unfold strip. apply Forall_rstrip, Forall_lstrip, Forall_sub_limit.
    apply Forall_squeeze; [left; reflexivity|].
    apply List.Forall_forall. intros c Hc. right. apply list_elem_of_In, Hc.
Qed.



End CleaningProperties.

Module RedactionProperties.
Import Re Preprocessor MatcherProperties.
Local Open Scope nat_scope.






Section WithPhoneNumbers.
Variable PhoneNumberMatcher : str -> exn (list (nat * nat)).





End WithPhoneNumbers.


End RedactionProperties.

Module PlainTextProperties.
Import Re Preprocessor MatcherProperties RedactionProperties CleaningProperties.
Import PreprocessorProperties.



End PlainTextProperties.

Module SentenceProperties.
Import Re Preprocessor ReProperties MatcherProperties.
Local Open Scope nat_scope.

(** A successful run ends in its continuation. *)
Lemma rep_loop_result {A : Type} (body : mstate -> (mstate -> option A) -> option A)
    (lo : nat) (hi : option nat) (k : mstate -> option A) :
  (forall st k' x, body st k' = Some x -> exists st', k' st' = Some x) ->
  forall fuel i st x, rep_loop body lo hi k fuel i st = Some x -> exists st', k st' = Some x.
Proof.
  intros Hbody. induction fuel as [|fuel IH]; intros i st x E; cbn [rep_loop] in E.
  - destruct (lo <=? i); [eauto | discriminate].
  - assert (Hstop : (if lo <=? i then k st else None) = Some x -> exists st', k st' = Some x).
    { destruct (lo <=? i); [eauto | discriminate]. }
    destruct (under hi i); [|auto].
    match type of E with match ?b with _ => _ end = _ => destruct b as [y|] eqn:B end; [|auto].
    injection E as <-. apply Hbody in B as [st' B].
    destruct (length (m_rest st') <? length (m_rest st)); [|discriminate].
    eapply IH, B.
Qed.

Lemma run_result {A : Type} (r : re) :
  forall (st : mstate) (k : mstate -> option A) (x : A),
    run r st k = Some x -> exists st', k st' = Some x.
Proof.
  induction r as [p | a IHa b IHb | a IHa b IHb | a IHa lo hi | | n a IHa];
    intros st k x E; cbn [run] in E.
  - destruct (m_rest st) as [|c rest]; [discriminate|].
    destruct (p c); [eauto | discriminate].
  - apply IHa in E as [st' E]. eapply IHb, E.
  - destruct (run a st k) as [y|] eqn:Ea; [injection E as <-; eapply IHa, Ea | eapply IHb, E].
  - eapply rep_loop_result; [|exact E]. intros st0 k' y. apply IHa.
  - destruct (xorb _ _); [eauto | discriminate].
  - apply IHa in E as [st' E]. eauto.
Qed.

(** The text begins with a character of the class. *)
Definition begins (look : char -> bool) (s : str) : Prop :=
  match s with
  | c :: _ => look c = true
  | [] => False
  end.

Lemma match_before_begins (r : re) (look : char -> bool) (prev : option char)
    (s : str) (st : mstate) :
  match_before r look prev s = Some st ->
  begins look (m_rest st) /\ length (m_rest st) < length s.
Proof.
  unfold match_before.
  destruct (run r _ _) as [st'|] eqn:E; [|discriminate].
  destruct (length (m_rest st') <? length s) eqn:L; [|discriminate].
  intros [= <-]. split; [|apply Nat.ltb_lt, L].
  apply run_result in E as [st0 E]. destruct (m_rest st0) as [|c rest] eqn:R; [discriminate|].
  destruct (look c) eqn:Lc; [|discriminate]. injection E as <-. rewrite R. exact Lc.
Qed.

Lemma begins_app (look : char -> bool) (s t : str) : begins look s -> begins look (s ++ t).
Proof. destruct s; [contradiction | auto]. Qed.

(** Every piece after the first begins with a character of the class, and so
    does the first when the text given so far does. *)
Lemma split_before_pieces (r : re) (look : char -> bool) :
  (forall prev c s, look c = true -> match_before r look prev (c :: s) = None) ->
  forall fuel s prev cur,
    length s < fuel ->
    exists p ps,
      split_before_fuel fuel r look prev cur s = p :: ps
      /\ Forall (begins look) ps
      /\ (begins look (cur ++ s) -> begins look p).
Proof.
  intros Hr. induction fuel as [|fuel IH]; intros s prev cur Hlen; [lia|].
  cbn [split_before_fuel]. destruct (match_before r look prev s) as [st|] eqn:M.
  - apply match_before_begins in M as M'. destruct M' as [Hb Hl].
    destruct (IH (m_rest st) (m_prev st) [] ltac:(lia)) as (p & ps & -> & Hps & Hp).
    exists cur, (p :: ps). split; [reflexivity|]. split.
    + constructor; [apply Hp, Hb | exact Hps].
    + destruct cur as [|c0 cur']; [|auto]. cbn [app].
      destruct s as [|c s']; [contradiction|]. intros Hc.
      rewrite (Hr prev c s' Hc) in M. discriminate.
  - destruct s as [|c s'].
    + exists cur, []. split; [reflexivity|]. split; [constructor|].
      rewrite app_nil_r. auto.
    + destruct (IH s' (Some c) (cur ++ [c]) ltac:(simpl in Hlen; lia)) as (p & ps & -> & Hps & Hp).
      exists p, ps. split; [reflexivity|]. split; [exact Hps|].
      rewrite <- app_assoc in Hp. exact Hp.
Qed.

Lemma sentence_end_not_capital (prev : option char) (c : char) (s : str) :
  _capital c = true -> match_before _sentence_end _capital prev (c :: s) = None.
Proof.
  intros Hc. unfold match_before, _sentence_end. cbn [cat]. unfold plus, any_of.
  cbn [run m_rest length rep_loop under Nat.leb m_caps].
  assert (Hp : bool_decide (c ∈ u ".!?") = false).
  { apply bool_decide_eq_false. intros Hin.
    change (u ".!?") with [46%N; 33%N; 63%N] in Hin.
    repeat (apply elem_of_cons in Hin as [-> | Hin]; [vm_compute in Hc; discriminate|]).
    inversion Hin. }
  rewrite Hp. reflexivity.
Qed.

Lemma capital_not_space (c : char) : _capital c = true -> isspace c = false.
Proof.
  unfold _capital, isupper_ascii, isspace. intros Hc.
  apply orb_true_iff in Hc as [Hc | Hc]; apply andb_true_iff in Hc as [A B];
    apply N.leb_le in A, B;
    repeat match goal with
    | |- context [(?a <=? c)%N] => destruct (N.leb_spec a c); try lia
    | |- context [(c <=? ?a)%N] => destruct (N.leb_spec c a); try lia
    | |- context [(c =? ?a)%N] => destruct (N.eqb_spec c a); try lia
    end; reflexivity.
Qed.

Lemma begins_strip (s : str) : begins _capital s -> begins _capital (strip s).
Proof.
  destruct s as [|c r]; [contradiction|]. cbn [begins]. intros Hc.
  assert (Hs := capital_not_space c Hc). unfold strip. cbn [lstrip]. rewrite Hs.
  cbn [rstrip]. destruct (rstrip r); [rewrite Hs|]; exact Hc.
Qed.

(** X11. Every sentence is non-empty and has no white space at either end, and
    every sentence after the first begins with a capital letter, Cyrillic
    [А-Я] or Latin [A-Z]. *)
Theorem split_sentences_shape :
  forall text : str,
    Forall (fun s => s <> [] /\ strip s = s) (split_sentences text)
    /\ Forall (begins _capital) (tail (split_sentences text)).
Proof.
  intros text. split.
  - unfold split_sentences. apply List.Forall_forall. intros s Hin.
    apply in_map_iff in Hin as (piece & <- & Hin).
    apply list_elem_of_In, list_elem_of_filter in Hin as [Hne _].
    split; [exact Hne | apply strip_idempotent].
  - unfold split_sentences, split_before.
    destruct (split_before_pieces _sentence_end _capital sentence_end_not_capital
                (S (length text)) text None [] ltac:(lia)) as (p & ps & -> & Hps & _).
    assert (G : Forall (begins _capital) (map strip (filter (fun s => strip s <> []) ps))).
    { apply Forall_map. apply List.Forall_forall. intros s Hs.
      apply list_elem_of_In, list_elem_of_filter in Hs as [_ Hs].
      apply begins_strip. eapply List.Forall_forall in Hps; [exact Hps|].
      apply list_elem_of_In, Hs. }
    rewrite filter_cons. destruct (decide (strip p <> [])).
    + cbn [map tail]. exact G.
    + destruct (map strip _) as [|x l]; [constructor|].
      cbn [tail]. inversion G; assumption.
Qed.

End SentenceProperties.

(** ** LLM parser: the actions made from an answer *)

Module LLMParserProperties.
Import OpenAILLMParser FloatOrder.

(** The confidence as [_parse_response] clamps it. *)
Definition clamp (c : float) : float := Py.min (Py.max c 0) 1.

Definition is_nan (c : float) : Prop := Prim2SF c = S754_nan.

#[local] Instance is_nan_dec (c : float) : Decision (is_nan c).
Proof. unfold is_nan. destruct (Prim2SF c); first [left; reflexivity | right; discriminate]. Defined.

Lemma clamp_cases (c : float) :
  (is_nan c /\ clamp c = c)
  \/ (~ is_nan c /\ ge (clamp c) 0 = true /\ le (clamp c) 1 = true
      /\ (clamp c = c \/ (lt c 0 = true /\ clamp c = 0%float)
          \/ (gt c 1 = true /\ clamp c = 1%float))).
Proof.
  destruct (decide (is_nan c)) as [E|E].
  - left. split; [exact E|]. unfold clamp, Py.max, Py.min, gt, lt.
    rewrite (ltb_nan_l c 0 E), (ltb_nan_r 1 c E). reflexivity.
  - right. split; [exact E|]. unfold clamp, Py.max, Py.min, gt, lt, ge, le.
    destruct (PrimFloat.ltb c 0) eqn:L0.
    + replace (PrimFloat.ltb 1 0) with false by reflexivity.
      split; [reflexivity|]. split; [reflexivity|]. right. left. split; reflexivity.
    + destruct (PrimFloat.ltb 1 c) eqn:L1.
      * split; [reflexivity|]. split; [reflexivity|]. right. right. split; reflexivity.
      * split; [|split; [|left; reflexivity]]; apply ltb_false_leb;
          first [exact E | exact L0 | exact L1 | (vm_compute; discriminate)].
Qed.

(** How an action of the schema and the raw action made from it relate. *)
Definition converted (a : LLMActionSchema.t) (r : RawAction.t) : Prop :=
  RawAction.category r = LLMActionSchema.category a
  /\ RawAction.subcategory r = LLMActionSchema.subcategory a
  /\ RawAction.action r = LLMActionSchema.action a
  /\ RawAction.type r
     = (if str_eqb (LLMActionSchema.type a) (u "achievement") then ACHIEVEMENT else ACTIVITY)
  /\ RawAction.estimated_time_minutes r = Some (LLMActionSchema.estimated_time_minutes a)
  /\ RawAction.achievement_weight r = LLMActionSchema.achievement_weight a
  /\ RawAction.source r = u "llm"
  /\ ge (RawAction.confidence r) 0 = true
  /\ le (RawAction.confidence r) 1 = true
  /\ (RawAction.confidence r = LLMActionSchema.confidence a
      \/ (lt (LLMActionSchema.confidence a) 0 = true /\ RawAction.confidence r = 0%float)
      \/ (gt (LLMActionSchema.confidence a) 1 = true /\ RawAction.confidence r = 1%float)).

Lemma action_type_of_value (value : str) :
  match ActionType_of_value value with Ok t => t | Raised => ACTIVITY end
  = if str_eqb value (u "achievement") then ACHIEVEMENT else ACTIVITY.
Proof.
  unfold ActionType_of_value, str_eqb.
  case_bool_decide as E1; [|destruct (bool_decide _); reflexivity].
  subst value. reflexivity.
Qed.

Lemma convert_action_cases (a : LLMActionSchema.t) :
  match _convert_action a with
  | Ok r => ~ is_nan (LLMActionSchema.confidence a) /\ converted a r
  | Raised => is_nan (LLMActionSchema.confidence a)
  end.
Proof.
  unfold _convert_action, RawAction.new, RawAction.valid.
  cbn [RawAction.confidence]. fold (clamp (LLMActionSchema.confidence a)).
  rewrite action_type_of_value.
  destruct (clamp_cases (LLMActionSchema.confidence a)) as [[Hn Hc] | (Hn & H0 & H1 & Hc)].
  - rewrite Hc. unfold ge. rewrite (leb_nan_r _ _ Hn). cbn [andb]. exact Hn.
  - rewrite H0, H1. cbn [andb]. split; [exact Hn|].
    unfold converted. cbn [RawAction.category RawAction.subcategory RawAction.action
      RawAction.type RawAction.estimated_time_minutes RawAction.achievement_weight
      RawAction.source RawAction.confidence].
    repeat (split; [reflexivity|]). split; [exact H0|]. split; [exact H1|]. exact Hc.
Qed.

Lemma parse_response_actions_cases (parsed : list LLMActionSchema.t) :
  match _parse_response parsed with
  | Ok actions =>
      Forall (fun a => ~ is_nan (LLMActionSchema.confidence a)) parsed
      /\ Forall2 converted parsed actions
  | Raised => Exists (fun a => is_nan (LLMActionSchema.confidence a)) parsed
  end.
Proof.
  induction parsed as [|a parsed IH]; [split; constructor|].
  cbn [_parse_response]. assert (Ha := convert_action_cases a).
  destruct (_convert_action a) as [r|]; cbn [mbind exn_bind].
  - destruct (_parse_response parsed) as [actions|]; cbn [mbind exn_bind].
    + destruct Ha as [Hn Hc], IH as [IH1 IH2]. split; constructor; assumption.
    + apply Exists_cons_tl, IH.
  - apply Exists_cons_hd, Ha.
Qed.

(** X12. [_parse_response] raises exactly when some confidence is not a number.
    Otherwise it returns one raw action per action of the schema, in order:
    the texts, the time and the weight are copied, the type is
    [achievement] when the schema says so and [activity] for any other
    value, the source is ["llm"], and the confidence is brought into the
    range from 0 to 1. *)
Theorem parse_response_actions :
  forall parsed : list LLMActionSchema.t,
    match _parse_response parsed with
    | Ok actions =>
        Forall (fun a => ~ is_nan (LLMActionSchema.confidence a)) parsed
        /\ Forall2 converted parsed actions
    | Raised => Exists (fun a => is_nan (LLMActionSchema.confidence a)) parsed
    end.
Proof. exact parse_response_actions_cases. Qed.

End LLMParserProperties.

(** ** Fusion: the actions it returns, and the history it reads *)

Module FusionResultProperties.
Import FusionService FusionProperties.

Section Fusion.
Context {H : Type} {HS : HistoryLookupService H}.
Variable history_service : H.
Variable settings : Settings.
Variable user_id : Z.

(** How a raw action and the action Fusion makes from it relate. *)
Definition enriched (raw : RawAction.t) (a : Action.t) : Prop :=
  Action.category a = RawAction.category raw
  /\ Action.subcategory a = RawAction.subcategory raw
  /\ Action.action a = RawAction.action raw
  /\ Action.type a = RawAction.type raw
  /\ Action.confidence a = RawAction.confidence raw
  /\ _determine_time history_service settings user_id raw
     = Ok (Action.estimated_time_minutes a, Action.time_source a)
  /\ Action.achievement_weight a
     = match RawAction.type raw, RawAction.achievement_weight raw with
       | ACHIEVEMENT, None => Some (achievement_default_weight settings)
       | _, w => w
       end
  /\ Action.valid a = true.

Lemma enrich_action_enriched (raw : RawAction.t) (a : Action.t) :
  _enrich_action history_service settings user_id raw = Ok a -> enriched raw a.
Proof.
  intros E. assert (Ht := enrich_uses_determined_time _ _ _ _ _ E).
  unfold _enrich_action in E. rewrite Ht in E. cbn [mbind exn_bind] in E.
  unfold Action.new in E.
  match type of E with (if Action.valid ?x then _ else _) = _ =>
    destruct (Action.valid x) eqn:V; [|discriminate] end.
  injection E as <-. unfold enriched.
  repeat split; first [reflexivity | exact Ht | exact V].
Qed.

Lemma enrich_all_cases (merged : list RawAction.t) :
  match _enrich_all history_service settings user_id merged with
  | Ok out => Forall2 enriched merged out
  | Raised =>
      Exists (fun raw => _enrich_action history_service settings user_id raw = Raised) merged
  end.
Proof.
  induction merged as [|raw merged IH]; [constructor|]. cbn [_enrich_all].
  destruct (_enrich_action history_service settings user_id raw) as [a|] eqn:E;
    cbn [mbind exn_bind]; [|apply Exists_cons_hd, E].
  destruct (_enrich_all history_service settings user_id merged) as [out|];
    cbn [mbind exn_bind]; [|apply Exists_cons_tl, IH].
  constructor; [apply enrich_action_enriched, E | exact IH].
Qed.

Lemma enrich_action_negative_time (raw : RawAction.t) (t : Z) :
  RawAction.estimated_time_minutes raw = Some t -> t < 0 ->
  ge (RawAction.confidence raw) 0.7 = true ->
  _enrich_action history_service settings user_id raw = Raised.
Proof.
  intros Et Hneg Hc. unfold _enrich_action, _determine_time. rewrite Et, Hc.
  cbn [mbind exn_bind]. unfold Action.new, Action.valid.
  cbn [Action.estimated_time_minutes]. rewrite (proj2 (Z.leb_gt 0 t)) by exact Hneg.
  reflexivity.
Qed.

Lemma enrich_all_raises (merged : list RawAction.t) :
  Exists (fun raw => _enrich_action history_service settings user_id raw = Raised) merged ->
  _enrich_all history_service settings user_id merged = Raised.
Proof.
  induction 1 as [raw merged E | raw merged _ IH]; cbn [_enrich_all].
  - rewrite E. reflexivity.
  - destruct (_enrich_action history_service settings user_id raw); [|reflexivity].
    cbn [mbind exn_bind]. rewrite IH. reflexivity.
Qed.

End Fusion.

(** X13. [fuse_results] takes the LLM's actions when there are any and the
    heuristic ones otherwise, and never both.  When it returns, it returns one
    action per action taken, in order, with the category, subcategory, text,
    type and confidence copied, the time and its source as [_determine_time]
    selects them, the default weight for an achievement without one, and the
    constraints of [Action] satisfied; it raises exactly when one of the
    actions taken cannot be made into an [Action]. *)
Theorem fuse_results_shape :
  forall (H : Type) (HS : HistoryLookupService H) (history_service : H)
         (settings : Settings) (user_id : Z)
         (heuristic_actions llm_actions : list RawAction.t)
         (heuristic_latency_ms llm_latency_ms : Z),
    let taken := match llm_actions with [] => heuristic_actions | _ => llm_actions end in
    match fuse_results history_service settings user_id heuristic_actions llm_actions
            heuristic_latency_ms llm_latency_ms with
    | Ok final_actions =>
        Forall2 (enriched history_service settings user_id) taken final_actions
    | Raised =>
        Exists (fun raw => _enrich_action history_service settings user_id raw = Raised) taken
    end.
Proof.
  intros H HS h settings u heur llm l1 l2 taken. unfold fuse_results.
  replace (_merge_actions heur llm) with taken by (destruct llm; reflexivity).
  apply enrich_all_cases.
Qed.

(** X14. An action of the LLM with a negative time and a confidence of at least 0.7 makes
    [fuse_results] raise: the time is taken as it is and [Action] refuses
    it. *)
Theorem fuse_results_negative_time :
  forall (H : Type) (HS : HistoryLookupService H) (history_service : H)
         (settings : Settings) (user_id : Z)
         (heuristic_actions llm_actions : list RawAction.t)
         (heuristic_latency_ms llm_latency_ms : Z) (raw : RawAction.t) (t : Z),
    In raw llm_actions ->
    RawAction.estimated_time_minutes raw = Some t -> t < 0 ->
    ge (RawAction.confidence raw) 0.7 = true ->
    fuse_results history_service settings user_id heuristic_actions llm_actions
      heuristic_latency_ms llm_latency_ms = Raised.
Proof.
  intros H HS h settings u heur llm l1 l2 raw t Hin Et Hneg Hc. unfold fuse_results.
  replace (_merge_actions heur llm) with llm
    by (destruct llm; [inversion Hin | reflexivity]).
  apply enrich_all_raises, List.Exists_exists. exists raw. split; [exact Hin|].
  eapply enrich_action_negative_time; eassumption.
Qed.

Definition negative_time : RawAction.t :=
  RawAction.mk (u "спорт") None (u "бег") ACTIVITY (Some (-30)) 0.9 None (u "llm").

Lemma fuse_results_negative_time_witness :
  fuse_results (HS := InMemoryHistoryService.service) InMemoryHistoryService.empty
    default_settings 1 [] [negative_time] 0 500
  = Raised.
Proof.
  apply (fuse_results_negative_time _ InMemoryHistoryService.service
           InMemoryHistoryService.empty default_settings 1 [] [negative_time] 0 500
           negative_time (-30)).
  - left. reflexivity.
  - reflexivity.
  - lia.
  - reflexivity.
Defined.

End FusionResultProperties.

Module FusionHistoryProperties.
Import FusionService FusionProperties FusionResultProperties.
Import HistoryLookupProperties CleaningProperties LLMParserProperties.

Section Fusion.
Context {H : Type} {HS : HistoryLookupService H}.
Variable history_service : H.
Variable settings : Settings.
Variable user_id : Z.


Lemma determine_time_not_default (raw : RawAction.t) (t : Z) (s : TimeSource) :
  RawAction.estimated_time_minutes raw <> None ->
  _determine_time history_service settings user_id raw = Ok (t, s) -> s <> DEFAULT.
Proof.
  intros He. unfold _determine_time.
  destruct (RawAction.estimated_time_minutes raw) as [t0|]; [|contradiction].
  destruct (ge (RawAction.confidence raw) 0.7); [intros [= _ <-]; discriminate|].
  destruct (get_average_time _ _ _) as [[h|]|]; cbn [mbind exn_bind];
    [intros [= _ <-] | intros [= _ <-] | ]; discriminate.
Qed.

End Fusion.




(** X16. An action that [_parse_response] made from the LLM's answer is never
    given the default time: its own time is there, so the source is [text],
    [history] or [model]. *)
Theorem llm_action_time_source :
  forall (H : Type) (HS : HistoryLookupService H) (history_service : H)
         (settings : Settings) (user_id : Z)
         (parsed : list OpenAILLMParser.LLMActionSchema.t)
         (heuristic_actions llm_actions : list RawAction.t)
         (heuristic_latency_ms llm_latency_ms : Z) (final_actions : list Action.t),
    OpenAILLMParser._parse_response parsed = Ok llm_actions ->
    llm_actions <> [] ->
    fuse_results history_service settings user_id heuristic_actions llm_actions
      heuristic_latency_ms llm_latency_ms = Ok final_actions ->
    Forall (fun a => Action.time_source a <> DEFAULT) final_actions.
Proof.
  intros H HS h settings u parsed heur llm l1 l2 final Hp Hne Hf.
  assert (P := parse_response_actions_cases parsed). rewrite Hp in P. destruct P as [_ P].
  unfold fuse_results in Hf.
  replace (_merge_actions heur llm) with llm in Hf by (destruct llm; [contradiction | reflexivity]).
  assert (F := enrich_all_cases h settings u llm). rewrite Hf in F.
  clear Hf Hp Hne. revert final F.
  induction P as [|a r parsed llm Hc _ IH]; intros final F; inversion F; subst; constructor.
  - match goal with E : enriched _ _ _ r _ |- _ => destruct E as (_ & _ & _ & _ & _ & Et & _) end.
    eapply determine_time_not_default; [|exact Et].
    destruct Hc as (_ & _ & _ & _ & -> & _). discriminate.
  - apply IH. assumption.
Qed.

(** An answer with one action of low confidence. *)
Definition unsure : OpenAILLMParser.LLMActionSchema.t :=
  OpenAILLMParser.LLMActionSchema.mk (u "спорт") None (u "бегал") (u "activity") 25 0.4 None.

Definition unsure_actions : list RawAction.t :=
  Eval vm_compute in
  match OpenAILLMParser._parse_response [unsure] with
  | Ok actions => actions
  | Raised => []
  end.

Definition unsure_final : list Action.t :=
  Eval vm_compute in
  match fuse_results (HS := InMemoryHistoryService.service) InMemoryHistoryService.empty
          default_settings 1 [] unsure_actions 0 500 with
  | Ok final_actions => final_actions
  | Raised => []
  end.

Lemma llm_action_time_source_witness :
  Forall (fun a => Action.time_source a <> DEFAULT) unsure_final.
Proof.
  apply (llm_action_time_source _ InMemoryHistoryService.service
           InMemoryHistoryService.empty default_settings 1 [unsure] [] unsure_actions
           0 500 unsure_final).
  - vm_compute. reflexivity.
  - discriminate.
  - vm_compute. reflexivity.
Defined.

End FusionHistoryProperties.

(** ** Postprocessor: where its actions come from, validity and duplicates *)

Module DeduplicationProperties.
Import PostprocessorService PostprocessorProperties FloatOrder.

(** *** Where an action of the output comes from *)







Section Similarity.
Variable fuzz_ratio : str -> str -> float.
Variable self : t.




(** The text an action has after the first pass. *)
Definition normalized_text (x : Action.t) : str := _apply_synonyms (strip (Action.action x)).


End Similarity.




End DeduplicationProperties.

Module ValidationProperties.
Import PostprocessorService PostprocessorProperties FloatOrder.






Section Similarity.
Variable fuzz_ratio : str -> str -> float.
Variable self : t.




End Similarity.



End ValidationProperties.

Module DuplicateProperties.
Import PostprocessorService PostprocessorProperties DeduplicationProperties.



Section Similarity.
Variable fuzz_ratio : str -> str -> float.
Variable self : t.



End Similarity.



End DuplicateProperties.

(** ** HeuristicParser: segments, durations and emitted actions *)

Module SegmentProperties.
Import Re ReProperties HeuristicParser SplitProperties MatcherProperties CleaningProperties.

Definition is_delimiter (c : char) : bool := bool_decide (c ∈ u ",;").

Lemma segment_pieces (text : str) :
  Forall (Forall (fun c => is_delimiter c = false)) (split _segment_delimiters text).
Proof.
  apply split_pieces. intros prev c s Hc.
  unfold _segment_delimiters. cbn [alt]. unfold any_of at 1.
  apply match_at_first_branch. exact Hc.
Qed.

Lemma segment_text_segments (text : str) (seg : str) :
  In seg (_segment_text text) ->
  seg <> [] /\ strip seg = seg /\ Forall (fun c => is_delimiter c = false) seg.
Proof.
  unfold _segment_text. intros Hin. apply in_map_iff in Hin as (piece & <- & Hin).
  apply list_elem_of_In, list_elem_of_filter in Hin as [Hne Hin].
  split; [exact Hne|]. split; [apply strip_idempotent|].
  unfold strip. apply Forall_rstrip, Forall_lstrip.
  assert (H := segment_pieces text).
  eapply List.Forall_forall in H; [exact H|]. apply list_elem_of_In, Hin.
Qed.

(** X20. Every segment is non-empty, has no white space at either end and holds
    no comma and no semicolon. *)
Theorem segment_text_shape :
  forall text : str,
    Forall (fun seg => seg <> [] /\ strip seg = seg
                       /\ Forall (fun c => c ∉ u ",;") seg) (_segment_text text).
Proof.
  intros text. apply List.Forall_forall. intros seg Hin.
  apply segment_text_segments in Hin as (A & B & C). split; [exact A|]. split; [exact B|].
  eapply Forall_impl; [exact C|]. intros c Hc. unfold is_delimiter in Hc.
  apply bool_decide_eq_false in Hc. exact Hc.
Qed.

(** *** Durations *)

Lemma int_of_digits_nonneg (s : str) : (0 <= int_of_digits s)%Z.
Proof.
  unfold int_of_digits.
  assert (G : forall acc, (0 <= acc)%Z ->
            (0 <= fold_left (fun acc c => 10 * acc + Z.of_N (c - 48)) s acc)%Z).
  { induction s as [|c s IH]; intros acc H; [exact H|]. cbn [fold_left]. apply IH. lia. }
  apply G. lia.
Qed.

Lemma extract_time_nonneg (text : str) (t : Z) : _extract_time text = Some t -> (0 <= t)%Z.
Proof.
  unfold _extract_time. destruct (search _time_pattern text) as [[i m]|]; [|discriminate].
  assert (H := int_of_digits_nonneg (default [] (group 1 (m_caps m)))).
  set (value := int_of_digits _) in *.
  destruct (_ || _); [intros [= <-]; lia|].
  destruct (_ || _); [intros [= <-]; lia|].
  destruct (_ || _); [intros [= <-]; lia | discriminate].
Qed.





(** *** The actions of [parse] *)

Lemma detect_category_table (text : str) (category : str) (subcategory : option str) :
  _detect_category text = (Some category, subcategory) ->
  exists keywords subcategories,
    In (category, (keywords, subcategories)) _category_keywords
    /\ match subcategory with
       | Some sc => exists kws, In (sc, kws) subcategories
       | None => True
       end.
Proof.
  unfold _detect_category. cbv zeta.
  match goal with |- context [List.find ?f ?l] =>
    destruct (List.find f l) as [[c [kws subs]]|] eqn:F; [|discriminate] end.
  intros [= <- <-]. apply find_some in F as [F _].
  exists kws, subs. split; [exact F|]. unfold _detect_subcategory.
  match goal with |- context [List.find ?f ?l] =>
    destruct (List.find f l) as [[sc k]|] eqn:G; cbn [option_map fst]; [|exact I] end.
  apply find_some in G as [G _]. exists k. exact G.
Qed.

Lemma detect_achievement_table (text : str) :
  match _detect_achievement text with
  | (true, Some w) => exists kw, In (kw, w) _achievement_keywords
  | (false, None) => True
  | _ => False
  end.
Proof.
  unfold _detect_achievement. cbv zeta.
  match goal with |- context [List.find ?f ?l] =>
    destruct (List.find f l) as [[kw w]|] eqn:F; [|exact I] end.
  apply find_some in F as [F _]. exists kw. exact F.
Qed.

Lemma achievement_weights : Forall (fun kw => (8 <= snd kw <= 25)%Z) _achievement_keywords.
Proof. repeat constructor; cbn; lia. Qed.

End SegmentProperties.

Module HeuristicActionProperties.
Import Re ReProperties HeuristicParser HeuristicProperties SegmentProperties.

(** What holds of every action the heuristic parser emits. *)
Definition heuristic_action (a : RawAction.t) : Prop :=
  RawAction.source a = u "heuristic"
  /\ (exists keywords subcategories,
        In (RawAction.category a, (keywords, subcategories)) _category_keywords
        /\ match RawAction.subcategory a with
           | Some sc => exists kws, In (sc, kws) subcategories
           | None => True
           end)
  /\ match RawAction.type a, RawAction.achievement_weight a with
     | ACHIEVEMENT, Some w => 8 <= w <= 25
     | ACTIVITY, None => True
     | _, _ => False
     end
  /\ match RawAction.estimated_time_minutes a with
     | Some t => 0 <= t
     | None => True
     end
  /\ strip (RawAction.action a) = RawAction.action a.

Lemma extracted_action_invariants (segment : str) (a : RawAction.t) :
  _extract_action_from_segment segment = Some a -> heuristic_action a.
Proof.
  unfold _extract_action_from_segment.
  destruct (_detect_category segment) as [[[|c cs]|] subcategory] eqn:D; try discriminate.
  assert (A := detect_achievement_table segment).
  destruct (_detect_achievement segment) as [is_achievement weight].
  intros [= <-]. unfold heuristic_action.
  cbn [RawAction.source RawAction.category RawAction.subcategory RawAction.type
       RawAction.achievement_weight RawAction.estimated_time_minutes RawAction.action].
  split; [reflexivity|]. split; [exact (detect_category_table _ _ _ D)|]. split; [|split].
  - destruct is_achievement, weight as [w|]; try contradiction; [|exact I].
    destruct A as [kw Hin].
    assert (H := achievement_weights). eapply List.Forall_forall in H; [|exact Hin].
    exact H.
  - destruct (_extract_time segment) as [t|] eqn:E; [|exact I].
    eapply extract_time_nonneg, E.
  - unfold _clean_action_text. apply strip_idempotent.
Qed.

(** X22. Every action [parse] emits has the source ["heuristic"], a category of
    the keyword table with a subcategory of that category or none, either the
    type [achievement] with a weight of the achievement table (between 8 and
    25) or the type [activity] without a weight, a time that is absent or not
    negative, and a text without white space at either end. *)
Theorem parse_action_invariants :
  forall (latency user_id : Z) (text : str),
    Forall heuristic_action (actions (parse latency user_id text)).
Proof.
  intros latency user_id text. apply List.Forall_forall. intros a Hin.
  apply parse_actions_from_segments in Hin as [segment E].
  eapply extracted_action_invariants, E.
Qed.

End HeuristicActionProperties.

(** ** Analyzer: the LLM fallback, heuristic results and the shared cache *)

Module PipelineProperties.
Import TextAnalyzer AnalyzerProperties.
Import FusionResultProperties DeduplicationProperties HeuristicActionProperties.
Import PostprocessorProperties CleaningProperties.

(** The collaborators with another LLM parser. *)
Definition with_llm_parser (env : Collaborators) (llm : str -> RawParseResult)
  : Collaborators := {|
  PhoneNumberMatcher := PhoneNumberMatcher env;
  fuzz_ratio := fuzz_ratio env;
  heuristic_parser := heuristic_parser env;
  llm_parser := llm;
  today := today env;
  model_dump_json := model_dump_json env;
  model_load_json := model_load_json env
|}.

Section Analyzer.
Context {H C : Type} {HS : HistoryLookupService H} {CS : CacheService C}.
Variable env : Collaborators.
Variable preprocessor : Preprocessor.TextPreprocessor.
Variable postprocessor : PostprocessorService.t.
Variable settings : Settings.

(** The text the parsers are given, the result of the heuristic parser, and
    whether the LLM parser is called. *)
Definition processed_text (text : str) : str :=
  Preprocessor.preprocess (PhoneNumberMatcher env) preprocessor text.

Definition heuristic_result (user_id : Z) (text : str) : RawParseResult :=
  heuristic_parser env user_id (processed_text text).

Definition calls_llm (user_id : Z) (text : str) : bool :=
  FusionService.should_use_llm settings (confidence (heuristic_result user_id text))
    (Z.of_nat (length (actions (heuristic_result user_id text))))
  && use_llm_fallback settings.

(** The steps of the pipeline after a cache miss. *)
Lemma analyze_uncached_steps (st st' : H * option C) (user_id : Z) (text : str)
    (analysis_date : date) (result : AnalysisResult.t) :
  _analyze_uncached env preprocessor postprocessor settings st user_id text analysis_date
  = Ok (result, st') ->
  exists fused l1 l2,
    FusionService.fuse_results (fst st) settings user_id
      (actions (heuristic_result user_id text))
      (if calls_llm user_id text then actions (llm_parser env (processed_text text)) else [])
      l1 l2 = Ok fused
    /\ PostprocessorService.process (fuzz_ratio env) postprocessor fused
       = Ok (AnalysisResult.actions result)
    /\ used_llm (AnalysisResult.meta result) = calls_llm user_id text
    /\ (calls_llm user_id text = false ->
        llm_latency_ms (AnalysisResult.meta result) = None
        /\ meta_errors (AnalysisResult.meta result) = []).
Proof.
  unfold _analyze_uncached. destruct st as [h c].
  fold (processed_text text). fold (heuristic_result user_id text).
  fold (calls_llm user_id text). cbv zeta.
  destruct (calls_llm user_id text) eqn:U; cbn [fst].
  - destruct (FusionService.fuse_results h settings user_id _ _ _ _) as [fused|] eqn:F;
      cbn [mbind exn_bind]; [|discriminate].
    destruct (PostprocessorService.process (fuzz_ratio env) postprocessor fused)
      as [final|] eqn:P; cbn [mbind exn_bind]; [|discriminate].
    intros [= <- <-]. eexists _, _, _. split; [exact F|]. split; [exact P|].
    split; [reflexivity | discriminate].
  - destruct (FusionService.fuse_results h settings user_id _ _ _ _) as [fused|] eqn:F;
      cbn [mbind exn_bind]; [|discriminate].
    destruct (PostprocessorService.process (fuzz_ratio env) postprocessor fused)
      as [final|] eqn:P; cbn [mbind exn_bind]; [|discriminate].
    intros [= <- <-]. eexists _, _, _. split; [exact F|]. split; [exact P|].
    split; [reflexivity|]. intros _. split; reflexivity.
Qed.

End Analyzer.

Section SkipLLM.
Context {H C : Type} {HS : HistoryLookupService H} {CS : CacheService C}.
Variable env : Collaborators.
Variable preprocessor : Preprocessor.TextPreprocessor.
Variable postprocessor : PostprocessorService.t.
Variable settings : Settings.

Lemma analyze_uncached_skips_llm (llm : str -> RawParseResult) (st : H * option C)
    (user_id : Z) (text : str) (analysis_date : date) :
  calls_llm env preprocessor settings user_id text = false ->
  _analyze_uncached (with_llm_parser env llm) preprocessor postprocessor settings st
    user_id text analysis_date
  = _analyze_uncached env preprocessor postprocessor settings st user_id text analysis_date.
Proof.
  unfold calls_llm, heuristic_result, processed_text, _analyze_uncached.
  cbn [with_llm_parser PhoneNumberMatcher fuzz_ratio heuristic_parser llm_parser today
       model_dump_json model_load_json].
  intros ->. destruct st as [h c]. unfold _cache_result. reflexivity.
Qed.

End SkipLLM.

End PipelineProperties.

Module PipelineTheorems.
Import TextAnalyzer AnalyzerProperties PipelineProperties.
Import FusionResultProperties DeduplicationProperties HeuristicActionProperties.
Import PostprocessorProperties CleaningProperties.

Lemma analyze_text_miss {H C : Type} {HS : HistoryLookupService H} {CS : CacheService C}
    (env : Collaborators) (preprocessor : Preprocessor.TextPreprocessor)
    (postprocessor : PostprocessorService.t) (settings : Settings)
    (st st' : H * option C) (user_id : Z) (text : str) (analysis_date : option date)
    (result : AnalysisResult.t) :
  analyze_text env preprocessor postprocessor settings st user_id text analysis_date
  = Ok (result, st') ->
  (_get_cached_result env (snd st) user_id text (default (today env) analysis_date)
   = Some result /\ st' = st)
  \/ _analyze_uncached env preprocessor postprocessor settings st user_id text
       (default (today env) analysis_date) = Ok (result, st').
Proof.
  unfold analyze_text.
  destruct (bool_decide (is_Some (snd st)) && cache_enabled settings); [|auto].
  destruct (_get_cached_result env (snd st) user_id text _) as [cached|]; [|auto].
  intros [= <- <-]. left. split; reflexivity.
Qed.

(** X23. When the heuristic parser found an action and its confidence reaches the
    threshold, or the LLM fallback is switched off, the LLM parser is not
    called: the analysis is the same whatever the LLM parser is, and a result
    that is not served from the cache says that no LLM was used. *)
Theorem confident_heuristics_skip_llm :
  forall (H C : Type) (HS : HistoryLookupService H) (CS : CacheService C)
         (env : Collaborators) (preprocessor : Preprocessor.TextPreprocessor)
         (postprocessor : PostprocessorService.t) (settings : Settings)
         (llm : str -> RawParseResult) (st : H * option C) (user_id : Z) (text : str)
         (analysis_date : option date),
    let heuristic_result :=
      heuristic_parser env user_id
        (Preprocessor.preprocess (PhoneNumberMatcher env) preprocessor text) in
    FusionService.should_use_llm settings (confidence heuristic_result)
      (Z.of_nat (length (actions heuristic_result))) = false
    \/ use_llm_fallback settings = false ->
    analyze_text (with_llm_parser env llm) preprocessor postprocessor settings st
      user_id text analysis_date
    = analyze_text env preprocessor postprocessor settings st user_id text analysis_date
    /\ (forall result st',
          analyze_text env preprocessor postprocessor settings st user_id text analysis_date
          = Ok (result, st') ->
          _get_cached_result env (snd st) user_id text (default (today env) analysis_date)
          = Some result
          \/ (used_llm (AnalysisResult.meta result) = false
              /\ llm_latency_ms (AnalysisResult.meta result) = None
              /\ meta_errors (AnalysisResult.meta result) = [])).
Proof.
  intros H C HS CS env preprocessor postprocessor settings llm st user_id text
         analysis_date hr Hskip.
  assert (Hc : calls_llm env preprocessor settings user_id text = false).
  { unfold calls_llm, PipelineProperties.heuristic_result, processed_text. fold hr.
    destruct Hskip as [-> | ->]; [reflexivity | apply andb_false_r]. }
  split.
  - unfold analyze_text. cbn [with_llm_parser today].
    rewrite analyze_uncached_skips_llm by exact Hc. reflexivity.
  - intros result st' E. apply analyze_text_miss in E as [[E _] | E]; [left; exact E|].
    right. apply analyze_uncached_steps in E as (fused & l1 & l2 & _ & _ & U & M).
    rewrite Hc in U. destruct (M Hc) as [M1 M2]. repeat split; assumption.
Qed.

Lemma confident_heuristics_skip_llm_witness :
  @analyze_text _ _ InMemoryHistoryService.service plain_cache
    (with_llm_parser mock_env llm_weight_zero) pii_preprocessor
    PostprocessorService.default default_settings
    (InMemoryHistoryService.empty, None) 1 (u "Читал 2 часа") None
  = @analyze_text _ _ InMemoryHistoryService.service plain_cache
      mock_env pii_preprocessor PostprocessorService.default default_settings
      (InMemoryHistoryService.empty, None) 1 (u "Читал 2 часа") None.
Proof.
  apply (confident_heuristics_skip_llm _ _ InMemoryHistoryService.service plain_cache
           mock_env pii_preprocessor PostprocessorService.default default_settings
           llm_weight_zero (InMemoryHistoryService.empty, None) 1 (u "Читал 2 часа") None).
  left. vm_compute. reflexivity.
Defined.

End PipelineTheorems.

Module HeuristicPipelineProperties.
Import TextAnalyzer AnalyzerProperties PipelineProperties PipelineTheorems.
Import FusionResultProperties DeduplicationProperties HeuristicActionProperties.
Import PostprocessorProperties.









End HeuristicPipelineProperties.

Module CacheProperties.
Import TextAnalyzer AnalyzerProperties PipelineProperties PipelineTheorems.




End CacheProperties.
